(** * A shallow embedding of [lm_env2.py]

    The language-model environment of PPOxFamily: [TextHistory] (the
    dialogue record with its fixed-width observation) and
    [TextEnvironment] (the reset / step loop around a GPT-2 model).

    Python objects that are mutated in place are modelled by explicit
    state passing in a small state-and-exception monad; a raised
    exception keeps the state reached so far, exactly as a Python
    object keeps the attributes assigned before the [raise].

    Modelling conventions:
    - a 1-D [torch.int64] tensor is a [list Z]; [None] where the code
      allows it is [option];
    - a Python [str] is a [string], [len] is [String.length];
    - the observation is cast with [.float()]; token ids are far below
      2^24, where the cast is exact, so observation and mask entries are
      kept as the integers they denote;
    - the tokenizer, the model and the reward callable are fields of
      the environment, as in the source; each may raise. *)

From Stdlib Require Import ZArith String List Bool Lia.
From stdpp Require Import base list strings.

Open Scope string_scope.
Open Scope list_scope.
Open Scope Z_scope.

(** ** Exceptions and the state monad *)

Inductive Exn : Type :=
| ValueError (msg : string)
| TypeError
| AttributeError
| Raised (what : string).

Definition M (S A : Type) : Type := S -> S * (Exn + A).

Definition ret {S A : Type} (a : A) : M S A := fun s => (s, inr a).

Definition raise {S A : Type} (e : Exn) : M S A := fun s => (s, inl e).

Definition bind {S A B : Type} (m : M S A) (k : A -> M S B) : M S B :=
  fun s => match m s with
           | (s', inr a) => k a s'
           | (s', inl e) => (s', inl e)
           end.

Definition gets {S A : Type} (f : S -> A) : M S A := fun s => (s, inr (f s)).

Definition modify {S : Type} (f : S -> S) : M S unit := fun s => (f s, inr tt).

(** The outcome of a call that does not touch [self]. *)
Definition call {S A : Type} (r : Exn + A) : M S A := fun s => (s, r).

Notation "x <- m ;; k" := (bind m (fun x => k))
  (at level 100, m at next level, right associativity).
Notation "m ;;; k" := (bind m (fun _ => k))
  (at level 100, right associativity).

(** ** Module-level constant *)

Definition obs_dim : nat := 8.

(** ** TextHistory *)

Record TextHistory : Type := mkTextHistory {
  text : string;
  text_spans : list (nat * nat);
  tokens : option (list Z);
  (* [None]: the attribute has not been assigned. *)
  completed : option bool
}.

Definition set_text (t : string) (h : TextHistory) : TextHistory :=
  mkTextHistory t (text_spans h) (tokens h) (completed h).

Definition set_text_spans (sp : list (nat * nat)) (h : TextHistory) : TextHistory :=
  mkTextHistory (text h) sp (tokens h) (completed h).

Definition set_tokens (tk : option (list Z)) (h : TextHistory) : TextHistory :=
  mkTextHistory (text h) (text_spans h) tk (completed h).

Definition set_completed (c : option bool) (h : TextHistory) : TextHistory :=
  mkTextHistory (text h) (text_spans h) (tokens h) c.

(** [torch.cat((a, b))]; a [None] operand is a [TypeError]. *)
Definition torch_cat (a : option (list Z)) (b : list Z) : Exn + list Z :=
  match a with
  | Some l => inr (l ++ b)
  | None => inl TypeError
  end.

(** [t[-n:]] for [n > 0]. *)
Definition last_n (n : nat) (t : list Z) : list Z := drop (length t - n) t.

Definition empty_segment : Exn :=
  ValueError "Can't append empty text or token list to history.".

Definition append_segment (txt : string) (toks : list Z) : M TextHistory unit :=
  if (String.length txt =? 0)%nat || (length toks =? 0)%nat
  then raise empty_segment
  else
    original_text_length <- gets (fun h => String.length (text h)) ;;
    modify (fun h => set_text (text h +:+ txt) h) ;;;
    modify (fun h => set_text_spans
                       (text_spans h ++ [(original_text_length, String.length (text h))]) h) ;;;
    cur <- gets tokens ;;
    joined <- call (torch_cat cur toks) ;;
    modify (set_tokens (Some joined)) ;;;
    if (obs_dim <? length joined)%nat
    then modify (set_tokens (Some (last_n obs_dim joined)))
    else ret tt.

(** The object before [__init__] has assigned anything. *)
Definition blank : TextHistory := mkTextHistory "" [] None None.

(** The body of [TextHistory.__init__]. *)
Definition TextHistory_init (txt : string) (toks : option (list Z)) : M TextHistory unit :=
  modify (set_text txt) ;;;
  modify (set_text_spans []) ;;;
  if (String.length txt =? 0)%nat
  then
    modify (set_text "") ;;;
    modify (set_tokens (Some []))
  else
    modify (set_tokens toks) ;;;
    modify (set_completed (Some false)) ;;;
    match toks with
    | Some t => append_segment txt t
    | None => raise TypeError          (* [len(None)] in [append_segment] *)
    end.

(** The expression [TextHistory(text, tokens)]: the object exists only
    when [__init__] returns. *)
Definition new_TextHistory (txt : string) (toks : option (list Z)) : Exn + TextHistory :=
  match TextHistory_init txt toks blank with
  | (h, inr _) => inr h
  | (_, inl e) => inl e
  end.

Definition last_text_segment (h : TextHistory) : Exn + string :=
  match last (text_spans h) with
  | Some (start, stop) => inr (substring start (stop - start) (text h))
  | None => inl (Raised "IndexError")
  end.

(** [F.pad(obs, (0, n))]: [n] zeros on the right. *)
Definition pad_right (n : nat) (obs : list Z) : list Z := obs ++ replicate n 0.

(** [mask[a:b] = v] on a 1-D tensor: the positions [i] of the tensor
    with [a <= i < b] are overwritten, the bounds being clamped to the
    length. *)
Definition slice_assign (a b : nat) (v : Z) (mask : list Z) : list Z :=
  imap (fun i x => if (a <=? i)%nat && (i <? b)%nat then v else x) mask.

(** The [for i in range(len(self.text_spans))] loop of [to_obs], from
    index [i] on. *)
Fixpoint paint_spans (i : nat) (spans : list (nat * nat)) (mask : list Z) : list Z :=
  match spans with
  | [] => mask
  | sli :: rest =>
      paint_spans (S i) rest
        (if (i mod 2 =? 0)%nat
         then slice_assign (fst sli) (snd sli) 1 mask
         else slice_assign (fst sli) (snd sli) 2 mask)
  end.

Definition to_obs (h : TextHistory) : list Z * list Z :=
  let obs := match tokens h with Some t => t | None => [] end in
  let obs := if (length obs <? obs_dim)%nat
             then pad_right (obs_dim - length obs) obs
             else obs in
  let mask := replicate (length obs) 0 in
  (obs, paint_spans 0 (text_spans h) mask).

(** ** Histories a program can hold *)

(** A history object comes from the constructor, from an accepted
    [append_segment], or from the environment writing [completed]. *)
Inductive reachable_history : TextHistory -> Prop :=
| reach_new txt toks h :
    new_TextHistory txt toks = inr h -> reachable_history h
| reach_append txt toks h h' :
    reachable_history h ->
    append_segment txt toks h = (h', inr tt) ->
    reachable_history h'
| reach_completed b h :
    reachable_history h -> reachable_history (set_completed (Some b) h).

(** Consecutive, non-empty spans from [start] to [stop]. *)
Fixpoint spans_chain (start : nat) (spans : list (nat * nat)) (stop : nat) : Prop :=
  match spans with
  | [] => start = stop
  | (a, b) :: rest => a = start /\ (a < b)%nat /\ spans_chain b rest stop
  end.

(** Position [p] lies in the span [sli]. *)
Definition covers (sli : nat * nat) (p : nat) : Prop :=
  (fst sli <= p)%nat /\ (p < snd sli)%nat.

(** The mask value of the segment with index [i]. *)
Definition role (i : nat) : Z := if Nat.even i then 1 else 2.

(** A run of [append_segment] calls, one per segment, in order. *)
Fixpoint append_all (segs : list (string * list Z)) : M TextHistory unit :=
  match segs with
  | [] => ret tt
  | (txt, toks) :: rest => append_segment txt toks ;;; append_all rest
  end.

(** What every reachable history satisfies: the tokens are a tensor of
    at most [obs_dim] entries, and the spans tile a suffix of the text. *)
Definition history_wf (h : TextHistory) : Prop :=
  (exists t, tokens h = Some t /\ (length t <= obs_dim)%nat) /\
  exists s, spans_chain s (text_spans h) (String.length (text h)).

(** The three values a mask entry can take. *)
Definition mask_value (v : Z) : Prop := v = 0 \/ v = 1 \/ v = 2.

(** The history [TextHistory("", None)] evaluates to. *)
Definition empty_history : TextHistory := mkTextHistory "" [] (Some []) None.

(** What an accepted [append_segment] leaves behind on a history whose
    tokens are [t]. *)
Definition appended (txt : string) (toks t : list Z) (h : TextHistory) : TextHistory :=
  mkTextHistory (text h +:+ txt)
    (text_spans h ++ [(String.length (text h), String.length (text h +:+ txt))])
    (Some (last_n obs_dim (t ++ toks)))
    (completed h).

(** ** Runs of appends *)

(** The segments' texts, one after the other. *)
Definition join_texts (texts : list string) : string :=
  fold_right String.append "" texts.

(** The spans of consecutive texts laid out from the offset [off]. *)
Fixpoint spans_from (off : nat) (texts : list string) : list (nat * nat) :=
  match texts with
  | [] => []
  | x :: rest =>
      (off, (off + String.length x)%nat) :: spans_from (off + String.length x) rest
  end.

(** [grows h0 h]: the object [h0] has become [h] through accepted
    [append_segment] calls and assignments to [completed]. *)
Inductive grows : TextHistory -> TextHistory -> Prop :=
| grows_refl h : grows h h
| grows_append txt toks h0 h h' :
    grows h0 h -> append_segment txt toks h = (h', inr tt) -> grows h0 h'
| grows_completed b h0 h :
    grows h0 h -> grows h0 (set_completed (Some b) h).

(** ** Slices and the index arithmetic of [calculate_perplexity] *)

(** A slice bound as Python resolves it on a sequence of length [len]:
    a negative bound counts from the end, and the result is clamped to
    [0 .. len]. *)
Definition py_bound (len : nat) (i : Z) : nat :=
  Z.to_nat (Z.min (Z.of_nat len) (Z.max 0 (if i <? 0 then i + Z.of_nat len else i))).

(** [l[start:stop]]. *)
Definition py_slice {A : Type} (start stop : Z) (l : list A) : list A :=
  take (py_bound (length l) stop - py_bound (length l) start)
       (drop (py_bound (length l) start) l).

(** [l[start:]]. *)
Definition py_slice_from {A : Type} (start : Z) (l : list A) : list A :=
  drop (py_bound (length l) start) l.

(** [torch.cat([query, response], dim=0)]. *)
Definition total_input (query response : list Z) : list Z := query ++ response.

(** [logits[start:-1, :]] with [start = query.shape[0]]; [logits] holds
    one row per token of the input. *)
Definition shifted_logits {Row : Type} (query : list Z) (logits : list Row) : list Row :=
  py_slice (Z.of_nat (length query)) (-1) logits.

(** [total_input[start+1:]]. *)
Definition shifted_labels (query response : list Z) : list Z :=
  py_slice_from (Z.of_nat (length query) + 1) (total_input query response).

(** ** Values passed to [step] and the builtin [str] *)

(** The argument of [step] is annotated [str], but the method starts
    with [query = str(query)], so any object may arrive.  [PyObject r]
    is an object of a user class whose [__str__] returns or raises
    [r]. *)
Inductive PyValue : Type :=
| PyStr (s : string)
| PyNone
| PyBool (b : bool)
| PyObject (r : Exn + string).

Definition py_str (v : PyValue) : Exn + string :=
  match v with
  | PyStr s => inr s
  | PyNone => inr "None"%string
  | PyBool true => inr "True"%string
  | PyBool false => inr "False"%string
  | PyObject r => r
  end.

(** ** TextEnvironment *)

(** What the environment asks of the tokenizer: the calls
    [tokenizer(query, return_tensors="pt").input_ids[0]] and
    [tokenizer.decode(ids)], and the attribute [tokenizer.vocab_size]
    the constructor reads. *)
Record Tokenizer : Type := mkTokenizer {
  encode : string -> Exn + list Z;
  decode : list Z -> Exn + string;
  vocab_size : Exn + Z
}.

(** [model.generate(input_ids=..., attention_mask=..., **kwargs)] on a
    batch of one sequence: row 0 of the generation, prompt included;
    and the attribute [model.device] the constructor reads. *)
Record Model : Type := mkModel {
  model_generate : list Z -> Exn + list Z;
  model_device : Exn + string
}.

(** The constructors of [gym.spaces] the constructor calls:
    [Text(max_length=n)], [Box(-float('inf'), 0)] and
    [Box(0, high, [n])].  Each may raise. *)
Record Gym : Type := mkGym {
  Text_space : nat -> Exn + unit;
  reward_Box : Exn + unit;
  observation_Box : Z -> nat -> Exn + unit
}.

(** One statement after the other, outside any object: the first
    exception ends the sequence. *)
Definition and_then {A B : Type} (r : Exn + A) (k : A -> Exn + B) : Exn + B :=
  match r with
  | inl e => inl e
  | inr a => k a
  end.

Section Environment.

Context {Reward : Type}.

Record TextEnvironment : Type := mkTextEnvironment {
  model : Model;
  tokenizer : Tokenizer;
  reward_fn : Model -> list Z -> list Z -> Exn + Reward;
  max_turns : Z;
  turn : Z;
  history : TextHistory
}.

Definition set_turn (n : Z) (env : TextEnvironment) : TextEnvironment :=
  mkTextEnvironment (model env) (tokenizer env) (reward_fn env) (max_turns env) n (history env).

Definition set_history (h : TextHistory) (env : TextEnvironment) : TextEnvironment :=
  mkTextEnvironment (model env) (tokenizer env) (reward_fn env) (max_turns env) (turn env) h.

(** A method of [self.history] called from a method of the environment:
    the history object is mutated in place. *)
Definition on_history {A : Type} (m : M TextHistory A) : M TextEnvironment A :=
  fun env => match m (history env) with
             | (h, r) => (set_history h env, r)
             end.

(** [TextEnvironment(model, tokenizer, reward_fn, max_turns)], with
    the [gym] library it runs against.  After the arguments, [turn] and
    the history, [__init__] reads [self.model.device] and builds the
    action, reward and observation spaces; any of these may raise, and
    then no object is built.  The device and the spaces are not read
    again by [reset], [generate] or [step] (the move of the query
    tokens to the device is part of [encode]), so the record does not
    keep them. *)
Definition new_TextEnvironment (gym : Gym) (mdl : Model) (tk : Tokenizer)
    (rf : Model -> list Z -> list Z -> Exn + Reward) (mt : Z) : Exn + TextEnvironment :=
  and_then (new_TextHistory "" None) (fun h =>
  and_then (model_device mdl) (fun _current_device =>
  and_then (Text_space gym obs_dim) (fun _action_space =>
  and_then (reward_Box gym) (fun _reward_space =>
  and_then (vocab_size tk) (fun size =>
  and_then (observation_Box gym size obs_dim) (fun _observation_space =>
  inr (mkTextEnvironment mdl tk rf mt 0 h))))))).

Definition reset : M TextEnvironment (list Z * list Z) :=
  h <- call (new_TextHistory "" None) ;;
  modify (set_history h) ;;;
  modify (set_turn 0) ;;;
  on_history (gets to_obs).

(** [_generate]: the prompt is cut off the generation;
    [batch_mask[0].sum()] is the length of the prompt. *)
Definition _generate (query_tensors : option (list Z)) : M TextEnvironment (list Z) :=
  match query_tensors with
  | None => raise AttributeError          (* [None.unsqueeze] *)
  | Some q =>
      mdl <- gets model ;;
      generation <- call (model_generate mdl q) ;;
      ret (drop (length q) generation)
  end.

Definition generate : M TextEnvironment (list Z) :=
  query_tensors <- gets (fun env => tokens (history env)) ;;
  response_tensors <- _generate query_tensors ;;
  tk <- gets tokenizer ;;
  response_texts <- call (decode tk response_tensors) ;;
  on_history (append_segment response_texts response_tensors) ;;;
  ret response_tensors.

Record StepResult : Type := mkStepResult {
  step_obs : list Z;
  step_rew : Reward;
  step_done : bool;
  step_mask : list Z          (* [info["mask"]] *)
}.

Definition step (query : PyValue) : M TextEnvironment StepResult :=
  query <- call (py_str query) ;;
  cur <- gets (fun env => tokens (history env)) ;;
  query_tokens <-
    match cur with
    | None =>
        tk <- gets tokenizer ;;
        query_tokens <- call (encode tk query) ;;
        h <- call (new_TextHistory query (Some query_tokens)) ;;
        modify (set_history h) ;;;
        ret query_tokens
    | Some _ =>
        tk <- gets tokenizer ;;
        query_tokens <- call (encode tk query) ;;
        on_history (append_segment query query_tokens) ;;;
        ret query_tokens
    end ;;
  response_tokens <- generate ;;
  rf <- gets reward_fn ;;
  mdl <- gets model ;;
  rew <- call (rf mdl query_tokens response_tokens) ;;
  modify (fun env => set_turn (turn env + 1) env) ;;;
  flag <- gets (fun env => turn env >=? max_turns env) ;;
  on_history (modify (set_completed (Some flag))) ;;;
  om <- on_history (gets to_obs) ;;
  finished <- gets (fun env => completed (history env)) ;;
  match finished with
  | Some d => ret (mkStepResult (fst om) rew d (snd om))
  | None => raise AttributeError
  end.

(** The last three statements of [step], once the reward is known:
    the state they leave and the tuple they return. *)
Definition close_turn (env : TextEnvironment) : TextEnvironment :=
  set_history
    (set_completed (Some (turn env + 1 >=? max_turns env)) (history env))
    (set_turn (turn env + 1) env).

Definition step_result (env : TextEnvironment) (rew : Reward) : StepResult :=
  mkStepResult (fst (to_obs (history env))) rew
    (turn env + 1 >=? max_turns env) (snd (to_obs (history env))).

(** ** Runs of the environment *)

(** [successful_steps env rs env']: a run of [step] calls from [env],
    none of which raised, returning [rs] in order and ending in
    [env']. *)
Inductive successful_steps : TextEnvironment -> list StepResult -> TextEnvironment -> Prop :=
| run_nil env : successful_steps env [] env
| run_snoc env env1 env2 rs q r :
    successful_steps env rs env1 ->
    step q env1 = (env2, inr r) ->
    successful_steps env (rs ++ [r]) env2.

(** The states an environment goes through: construction, then any
    sequence of [reset] and [step] calls, whether they raise or not. *)
Inductive reachable_env : TextEnvironment -> Prop :=
| reach_init gym mdl tk rf mt env :
    new_TextEnvironment gym mdl tk rf mt = inr env -> reachable_env env
| reach_reset env : reachable_env env -> reachable_env (fst (reset env))
| reach_step q env : reachable_env env -> reachable_env (fst (step q env)).

(** ** Callers of [step] *)

(** A caller that submits the queries one after the other and catches
    what [step] raises. *)
Fixpoint run_steps (queries : list PyValue) (env : TextEnvironment)
    : TextEnvironment * list (Exn + StepResult) :=
  match queries with
  | [] => (env, [])
  | q :: rest =>
      match step q env with
      | (env1, r) =>
          match run_steps rest env1 with
          | (env2, rs) => (env2, r :: rs)
          end
      end
  end.

(** The results of the calls that returned. *)
Definition returned (outs : list (Exn + StepResult)) : list StepResult :=
  omap (fun o => match o with inr r => Some r | inl _ => None end) outs.

(** The query [test_env] submits at every turn. *)
Definition auto_query : string := "Auto-generated query here".

(** The [for _ in range(env.max_turns)] loop of [test_env], with [n]
    iterations left.  What the loop prints is returned as the list of
    the pairs (reward, last text segment) it formats. *)
Fixpoint interaction_loop (n : nat) : M TextEnvironment (list (Reward * string)) :=
  match n with
  | O => ret []
  | S n' =>
      r <- step (PyStr auto_query) ;;
      seg <- on_history (fun h => (h, last_text_segment h)) ;;
      if step_done r
      then ret [(step_rew r, seg)]                       (* [break] *)
      else
        rest <- interaction_loop n' ;;
        ret ((step_rew r, seg) :: rest)
  end.

(** [test_env] from [env.reset()] on, for the environment it has
    built; [range] of a non-positive bound is empty. *)
Definition test_env : M TextEnvironment (list (Reward * string)) :=
  reset ;;;
  n <- gets (fun env => Z.to_nat (max_turns env)) ;;
  interaction_loop n.

(** The services answer the query [query] whatever the prompt: the
    tokenizer encodes it to some tokens, the model adds at least one
    token to every prompt, the continuation decodes to a non-empty
    text, and the reward function returns. *)
Definition services_answer (env : TextEnvironment) (query : string) : Prop :=
  query <> ""%string /\
  exists qt, encode (tokenizer env) query = inr qt /\ qt <> [] /\
    forall prompt, exists g rs w,
      model_generate (model env) prompt = inr g /\
      drop (length prompt) g <> [] /\
      decode (tokenizer env) (drop (length prompt) g) = inr rs /\
      rs <> ""%string /\
      reward_fn env (model env) qt (drop (length prompt) g) = inr w.

End Environment.

(** ** Stub services for the worked examples *)

(** Maps ["hi"] to [[1;2]] and any other text to its character codes;
    decodes every token sequence to [reply]. *)
Definition stub_tokenizer (reply : string) : Tokenizer :=
  mkTokenizer
    (fun s => if String.eqb s "hi" then inr [1; 2]
              else inr (map (fun c => Z.of_nat (Ascii.nat_of_ascii c)) (list_ascii_of_string s)))
    (fun _ => inr reply)
    (inr 50257).

(** Continues every prompt with [[3;4;5]]. *)
Definition stub_model : Model := mkModel (fun q => inr (q ++ [3; 4; 5])) (inr "cpu"%string).

Definition failing_model : Model :=
  mkModel (fun _ => inl (Raised "RuntimeError")) (inr "cpu"%string).

(** A [gym] whose spaces are all built. *)
Definition stub_gym : Gym := mkGym (fun _ => inr tt) (inr tt) (fun _ _ => inr tt).

(** A [gym] that cannot build the observation space. *)
Definition failing_gym : Gym :=
  mkGym (fun _ => inr tt) (inr tt) (fun _ _ => inl (Raised "AssertionError")).

Definition stub_reward : Model -> list Z -> list Z -> Exn + Z := fun _ _ _ => inr 0.

Definition failing_reward : Model -> list Z -> list Z -> Exn + Z :=
  fun _ _ _ => inl (Raised "RuntimeError").

(** An environment as [__init__] leaves it. *)
Definition fresh_env (mdl : Model) (tk : Tokenizer)
    (rf : Model -> list Z -> list Z -> Exn + Z) (mt : Z) : TextEnvironment :=
  mkTextEnvironment mdl tk rf mt 0 empty_history.

(** The environments of the examples: [max_turns = 3], the tokenizer
    decoding every response to ["abc"] unless said otherwise. *)
Definition demo_env : TextEnvironment :=
  fresh_env stub_model (stub_tokenizer "abc") stub_reward 3.

(** The response text has five characters for three tokens. *)
Definition long_reply_env : TextEnvironment :=
  fresh_env stub_model (stub_tokenizer "hello") stub_reward 3.

Definition no_model_env : TextEnvironment :=
  fresh_env failing_model (stub_tokenizer "abc") stub_reward 3.

Definition no_reward_env : TextEnvironment :=
  fresh_env stub_model (stub_tokenizer "abc") failing_reward 3.

(** [demo_env] after one, two and three calls of [step("hi")], and what
    the calls return. *)
Definition demo_env1 : TextEnvironment :=
  mkTextEnvironment stub_model (stub_tokenizer "abc") stub_reward 3 1
    (mkTextHistory "hiabc" [(0, 2); (2, 5)]%nat (Some [1; 2; 3; 4; 5]) (Some false)).

Definition demo_env2 : TextEnvironment :=
  mkTextEnvironment stub_model (stub_tokenizer "abc") stub_reward 3 2
    (mkTextHistory "hiabchiabc" [(0, 2); (2, 5); (5, 7); (7, 10)]%nat
       (Some [3; 4; 5; 1; 2; 3; 4; 5]) (Some false)).

Definition done_env : TextEnvironment :=
  mkTextEnvironment stub_model (stub_tokenizer "abc") stub_reward 3 3
    (mkTextHistory "hiabchiabchiabc"
       [(0, 2); (2, 5); (5, 7); (7, 10); (10, 12); (12, 15)]%nat
       (Some [3; 4; 5; 1; 2; 3; 4; 5]) (Some true)).

Definition demo_result1 : StepResult :=
  mkStepResult [1; 2; 3; 4; 5; 0; 0; 0] 0 false [1; 1; 2; 2; 2; 0; 0; 0].

Definition demo_result2 : StepResult :=
  mkStepResult [3; 4; 5; 1; 2; 3; 4; 5] 0 false [1; 1; 2; 2; 2; 1; 1; 2].

Definition demo_result3 : StepResult :=
  mkStepResult [3; 4; 5; 1; 2; 3; 4; 5] 0 true [1; 1; 2; 2; 2; 1; 1; 2].

(** [demo_env] after [step("Auto-generated query here")]: the query
    has 25 characters, and the stub tokenizer gives one token per
    character. *)
Definition auto_env1 : TextEnvironment :=
  mkTextEnvironment stub_model (stub_tokenizer "abc") stub_reward 3 1
    (mkTextHistory "Auto-generated query hereabc" [(0, 25); (25, 28)]%nat
       (Some [32; 104; 101; 114; 101; 3; 4; 5]) (Some false)).

(** A model that adds nothing to the prompt. *)
Definition echo_model : Model := mkModel (fun q => inr q) (inr "cpu"%string).

Definition echo_env : TextEnvironment :=
  fresh_env echo_model (stub_tokenizer "abc") stub_reward 3.

(** A tokenizer that encodes as [stub_tokenizer] does and cannot
    decode. *)
Definition no_decode_tokenizer : Tokenizer :=
  mkTokenizer (encode (stub_tokenizer "abc"))
    (fun _ => inl (Raised "UnicodeDecodeError")) (inr 50257).

Definition no_decode_env : TextEnvironment :=
  fresh_env stub_model no_decode_tokenizer stub_reward 3.

Definition auto_result1 : StepResult :=
  mkStepResult [32; 104; 101; 114; 101; 3; 4; 5] 0 false [1; 1; 1; 1; 1; 1; 1; 1].

(** * Properties of [TextHistory] *)

Lemma string_length_app (a b : string) :
  String.length (a +:+ b) = (String.length a + String.length b)%nat.
Proof. induction a as [|c a IH]; simpl; [reflexivity | now rewrite IH]. Qed.

Lemma string_length_zero (s : string) : (String.length s =? 0)%nat = true <-> s = "".
Proof. destruct s; simpl; split; intros H; try reflexivity; discriminate. Qed.

Lemma list_length_zero (l : list Z) : (length l =? 0)%nat = true <-> l = [].
Proof. destruct l; simpl; split; intros H; try reflexivity; discriminate. Qed.

Lemma guard_false (txt : string) (toks : list Z) :
  txt <> "" -> toks <> [] ->
  (String.length txt =? 0)%nat || (length toks =? 0)%nat = false.
Proof.
  intros Ht Hk. apply orb_false_iff. split; apply not_true_is_false.
  - now rewrite string_length_zero.
  - now rewrite list_length_zero.
Qed.

Lemma guard_true (txt : string) (toks : list Z) :
  txt = "" \/ toks = [] ->
  (String.length txt =? 0)%nat || (length toks =? 0)%nat = true.
Proof.
  intros [-> | ->]; [reflexivity|]. apply orb_true_iff. right. reflexivity.
Qed.

Lemma last_n_length (n : nat) (t : list Z) : length (last_n n t) = Nat.min n (length t).
Proof. unfold last_n. rewrite length_drop. lia. Qed.

Lemma last_n_short (n : nat) (t : list Z) : (length t <= n)%nat -> last_n n t = t.
Proof. intros H. unfold last_n. replace (length t - n)%nat with 0%nat by lia. reflexivity. Qed.

(** Cutting a window twice is cutting it once: the window of the
    window extended by [b] is the window of everything extended by [b]. *)
Lemma last_n_app_window (n : nat) (a b : list Z) :
  last_n n (last_n n a ++ b) = last_n n (a ++ b).
Proof.
  unfold last_n.
  rewrite <- (drop_app_le a b (length a - n)) by lia.
  rewrite drop_drop. f_equal.
  rewrite length_drop, !length_app. lia.
Qed.

Lemma append_segment_rejects (txt : string) (toks : list Z) (h : TextHistory) :
  txt = "" \/ toks = [] -> append_segment txt toks h = (h, inl empty_segment).
Proof. intros H. unfold append_segment. now rewrite (guard_true _ _ H). Qed.

Lemma append_segment_accepts (txt : string) (toks t : list Z) (h : TextHistory) :
  txt <> "" -> toks <> [] -> tokens h = Some t ->
  append_segment txt toks h = (appended txt toks t h, inr tt).
Proof.
  intros Ht Hk Hh. unfold append_segment. rewrite (guard_false _ _ Ht Hk).
  unfold bind, gets, modify, call, ret, appended; simpl. rewrite Hh; simpl.
  destruct (obs_dim <? length (t ++ toks))%nat eqn:E; simpl.
  - reflexivity.
  - apply Nat.ltb_ge in E. now rewrite (last_n_short _ _ E).
Qed.

Lemma append_segment_inv (txt : string) (toks : list Z) (h h' : TextHistory) :
  append_segment txt toks h = (h', inr tt) ->
  txt <> "" /\ toks <> [] /\ exists t, tokens h = Some t /\ h' = appended txt toks t h.
Proof.
  intros H.
  destruct (decide (txt = "")) as [->|Ht].
  { rewrite append_segment_rejects in H by auto. discriminate. }
  destruct (decide (toks = [])) as [->|Hk].
  { rewrite append_segment_rejects in H by auto. discriminate. }
  destruct (tokens h) as [t|] eqn:Hh.
  - rewrite (append_segment_accepts _ _ t) in H by assumption.
    injection H as <-. eauto.
  - unfold append_segment in H. rewrite (guard_false _ _ Ht Hk) in H.
    unfold bind, gets, modify, call in H; simpl in H. rewrite Hh in H. discriminate.
Qed.

Lemma new_TextHistory_empty (toks : option (list Z)) :
  new_TextHistory "" toks = inr empty_history.
Proof. reflexivity. Qed.

(** A non-empty first segment is stored once by the assignments of
    [__init__] and once more by the [append_segment] call that ends
    it. *)
Lemma new_TextHistory_nonempty (txt : string) (toks : list Z) :
  txt <> "" -> toks <> [] ->
  new_TextHistory txt (Some toks) =
  inr (mkTextHistory (txt +:+ txt)
         [(String.length txt, String.length (txt +:+ txt))]
         (Some (last_n obs_dim (toks ++ toks)))
         (Some false)).
Proof.
  intros Ht Hk. unfold new_TextHistory, TextHistory_init.
  destruct (String.length txt =? 0)%nat eqn:E.
  { apply string_length_zero in E. contradiction. }
  unfold bind at 1 2 3 4; simpl.
  rewrite (append_segment_accepts txt toks toks) by (assumption || reflexivity).
  reflexivity.
Qed.

Lemma new_TextHistory_inv (txt : string) (toks : option (list Z)) (h : TextHistory) :
  new_TextHistory txt toks = inr h ->
  h = empty_history \/
  exists t, txt <> "" /\ t <> [] /\
    h = mkTextHistory (txt +:+ txt)
          [(String.length txt, String.length (txt +:+ txt))]
          (Some (last_n obs_dim (t ++ t))) (Some false).
Proof.
  intros H.
  destruct (decide (txt = "")) as [->|Ht].
  { rewrite new_TextHistory_empty in H. injection H as <-. now left. }
  destruct toks as [t|].
  - destruct (decide (t = [])) as [->|Hk].
    + unfold new_TextHistory, TextHistory_init in H.
      destruct (String.length txt =? 0)%nat eqn:E.
      { apply string_length_zero in E. contradiction. }
      unfold bind at 1 2 3 4 in H; simpl in H.
      rewrite append_segment_rejects in H by auto. discriminate.
    + rewrite new_TextHistory_nonempty in H by assumption.
      injection H as <-. right. eauto.
  - unfold new_TextHistory, TextHistory_init in H.
    destruct (String.length txt =? 0)%nat eqn:E.
    { apply string_length_zero in E. contradiction. }
    discriminate.
Qed.

(** ** Spans *)

Lemma spans_chain_snoc (s e e' : nat) (sp : list (nat * nat)) :
  spans_chain s sp e -> (e < e')%nat -> spans_chain s (sp ++ [(e, e')]) e'.
Proof.
  revert s. induction sp as [|[a b] sp IH]; simpl; intros s H He.
  - subst. auto.
  - destruct H as (-> & Hab & H). auto.
Qed.

Lemma spans_chain_le (s e : nat) (sp : list (nat * nat)) :
  spans_chain s sp e -> (s <= e)%nat.
Proof.
  revert s. induction sp as [|[a b] sp IH]; simpl; intros s H.
  - lia.
  - destruct H as (-> & Hab & H). apply IH in H. lia.
Qed.

Lemma spans_chain_after (s e p : nat) (sp : list (nat * nat)) :
  spans_chain s sp e -> (p < s)%nat -> forall sli, sli ∈ sp -> ~ covers sli p.
Proof.
  revert s. induction sp as [|[a b] sp IH]; simpl; intros s H Hp sli Hin.
  - inversion Hin.
  - destruct H as (-> & Hab & H).
    apply elem_of_cons in Hin as [-> | Hin].
    + unfold covers; simpl. lia.
    + apply (IH b); [assumption | lia | assumption].
Qed.

Lemma reachable_history_wf (h : TextHistory) : reachable_history h -> history_wf h.
Proof.
  induction 1 as [txt toks h Hnew | txt toks h h' _ IH Happ | b h _ IH].
  - apply new_TextHistory_inv in Hnew as [-> | (t & Ht & Hk & ->)].
    + split; [exists []; split; [reflexivity | simpl; lia] | exists 0%nat; reflexivity].
    + split.
      * eexists; split; [reflexivity|]. rewrite last_n_length. lia.
      * exists (String.length txt). simpl. rewrite string_length_app.
        destruct txt; [contradiction | simpl; lia].
  - apply append_segment_inv in Happ as (Ht & Hk & t & Htok & ->).
    destruct IH as [_ [s Hs]]. split.
    + eexists; split; [reflexivity|]. rewrite last_n_length. lia.
    + exists s. simpl. apply spans_chain_snoc; [assumption|].
      rewrite string_length_app. destruct txt; [contradiction | simpl; lia].
  - exact IH.
Qed.

(** ** The mask *)

Lemma even_test (i : nat) : (i mod 2 =? 0)%nat = Nat.even i.
Proof.
  destruct (Nat.even i) eqn:E.
  - apply Nat.eqb_eq. apply Nat.even_spec in E. destruct E as [k ->].
    rewrite Nat.mul_comm. apply Nat.Div0.mod_mul.
  - apply Nat.eqb_neq. intros H. apply Nat.Div0.mod_divides in H as [k ->].
    rewrite Nat.even_mul in E. discriminate.
Qed.

Lemma paint_spans_cons (i : nat) (sli : nat * nat) (rest : list (nat * nat)) (m : list Z) :
  paint_spans i (sli :: rest) m =
  paint_spans (S i) rest (slice_assign (fst sli) (snd sli) (role i) m).
Proof. cbn [paint_spans]. unfold role. rewrite even_test. now destruct (Nat.even i). Qed.

Lemma slice_assign_length (a b : nat) (v : Z) (m : list Z) :
  length (slice_assign a b v m) = length m.
Proof. apply length_imap. Qed.

Lemma slice_assign_inside (a b p : nat) (v : Z) (m : list Z) :
  covers (a, b) p -> (p < length m)%nat -> slice_assign a b v m !! p = Some v.
Proof.
  intros [Ha Hb] Hp. simpl in Ha, Hb. unfold slice_assign. rewrite list_lookup_imap.
  destruct (lookup_lt_is_Some_2 m p Hp) as [x ->]. simpl.
  rewrite (proj2 (Nat.leb_le a p) Ha), (proj2 (Nat.ltb_lt p b) Hb). reflexivity.
Qed.

Lemma slice_assign_outside (a b p : nat) (v : Z) (m : list Z) :
  ~ covers (a, b) p -> slice_assign a b v m !! p = m !! p.
Proof.
  intros Hn. unfold slice_assign. rewrite list_lookup_imap.
  destruct (m !! p) as [x|]; [simpl | reflexivity].
  destruct (a <=? p)%nat eqn:Ea; [|reflexivity].
  destruct (p <? b)%nat eqn:Eb; [|reflexivity].
  exfalso. apply Hn. split; simpl; [now apply Nat.leb_le | now apply Nat.ltb_lt].
Qed.

Lemma slice_assign_values (a b : nat) (v : Z) (m : list Z) :
  mask_value v -> Forall mask_value m -> Forall mask_value (slice_assign a b v m).
Proof.
  intros Hv Hm. apply Forall_forall. intros x Hx.
  apply elem_of_lookup_imap_1 in Hx as (i & y & -> & Hy).
  destruct ((a <=? i)%nat && (i <? b)%nat); [assumption|].
  rewrite Forall_forall in Hm. eapply Hm, list_elem_of_lookup_2, Hy.
Qed.

Lemma role_value (i : nat) : mask_value (role i).
Proof. unfold role, mask_value. destruct (Nat.even i); auto. Qed.

Lemma paint_spans_length (i : nat) (sp : list (nat * nat)) (m : list Z) :
  length (paint_spans i sp m) = length m.
Proof.
  revert i m. induction sp as [|sli sp IH]; intros i m; [reflexivity|].
  rewrite paint_spans_cons, IH. apply slice_assign_length.
Qed.

Lemma paint_spans_values (i : nat) (sp : list (nat * nat)) (m : list Z) :
  Forall mask_value m -> Forall mask_value (paint_spans i sp m).
Proof.
  revert i m. induction sp as [|sli sp IH]; intros i m Hm; [assumption|].
  rewrite paint_spans_cons. apply IH, slice_assign_values; [apply role_value | assumption].
Qed.

Lemma paint_spans_outside (i p : nat) (sp : list (nat * nat)) (m : list Z) :
  (forall sli, sli ∈ sp -> ~ covers sli p) -> paint_spans i sp m !! p = m !! p.
Proof.
  revert i m. induction sp as [|[a b] sp IH]; intros i m H; [reflexivity|].
  rewrite paint_spans_cons, IH.
  - apply slice_assign_outside. apply H. left.
  - intros sli Hin. apply H. now right.
Qed.

(** On a chain of spans the loop writes each covered position once. *)
Lemma paint_spans_inside (s e i j p : nat) (sli : nat * nat)
    (sp : list (nat * nat)) (m : list Z) :
  spans_chain s sp e -> sp !! j = Some sli -> covers sli p -> (p < length m)%nat ->
  paint_spans i sp m !! p = Some (role (i + j)).
Proof.
  revert s i j m. induction sp as [|[a b] sp IH]; intros s i j m Hc Hj Hcov Hp.
  - discriminate.
  - rewrite paint_spans_cons. destruct Hc as (-> & Hab & Hc).
    destruct j as [|j]; simpl in Hj.
    + injection Hj as <-. rewrite Nat.add_0_r.
      rewrite paint_spans_outside.
      * now apply slice_assign_inside.
      * apply (spans_chain_after b e); [assumption | apply Hcov].
    + replace (i + S j)%nat with (S i + j)%nat by lia.
      apply (IH b); try assumption. now rewrite slice_assign_length.
Qed.

(** ** Claims about [TextHistory] *)

Lemma last_n_suffix (n : nat) (l : list Z) :
  exists dropped, l = dropped ++ last_n n l.
Proof. exists (take (length l - n) l). unfold last_n. now rewrite take_drop. Qed.

Lemma append_all_tokens (segs : list (string * list Z)) (h h' : TextHistory) (t : list Z) :
  tokens h = Some t -> (length t <= obs_dim)%nat ->
  append_all segs h = (h', inr tt) ->
  tokens h' = Some (last_n obs_dim (t ++ concat (map snd segs))).
Proof.
  revert h t. induction segs as [|[txt toks] segs IH]; intros h t Ht Hlen Hrun.
  - simpl in Hrun. injection Hrun as <-. simpl. rewrite app_nil_r.
    now rewrite last_n_short.
  - simpl in Hrun. unfold bind in Hrun.
    destruct (append_segment txt toks h) as [h1 [e|[]]] eqn:E; [discriminate|].
    apply append_segment_inv in E as (_ & _ & t1 & Ht1 & ->).
    rewrite Ht in Ht1. injection Ht1 as <-.
    rewrite (IH (appended txt toks t h) (last_n obs_dim (t ++ toks))).
    + simpl. now rewrite last_n_app_window, app_assoc.
    + reflexivity.
    + rewrite last_n_length. lia.
    + exact Hrun.
Qed.

(** C5. [append_segment] with an empty text or an empty token tensor
    raises the [ValueError] and leaves the history exactly as it was;
    with a non-empty text and a non-empty tensor it returns, and the
    history then holds the text with the new text added at its end,
    one more span from the old length of the text to the new one, the
    last [obs_dim] of the old tokens followed by the new ones, and the
    [completed] flag it had. *)
Theorem append_segment_contract (h : TextHistory) (txt : string) (toks : list Z) :
  reachable_history h ->
  (txt = "" \/ toks = [] -> append_segment txt toks h = (h, inl empty_segment)) /\
  (txt <> "" -> toks <> [] ->
   exists t h',
     tokens h = Some t /\
     append_segment txt toks h = (h', inr tt) /\
     h' = appended txt toks t h /\
     text h' = text h +:+ txt /\
     text_spans h' =
       text_spans h ++
       [(String.length (text h), (String.length (text h) + String.length txt)%nat)] /\
     tokens h' = Some (last_n obs_dim (t ++ toks)) /\
     completed h' = completed h).
Proof.
  intros Hr. split.
  - apply append_segment_rejects.
  - intros Ht Hk. destruct (reachable_history_wf h Hr) as [(t & Htok & _) _].
    exists t, (appended txt toks t h).
    split; [exact Htok|]. split; [now apply append_segment_accepts|].
    cbn [appended text text_spans tokens completed].
    rewrite string_length_app. repeat split.
Qed.

Lemma append_segment_contract_witness :
  reachable_history empty_history /\
  append_segment "" [1; 2] empty_history = (empty_history, inl empty_segment) /\
  append_segment "hi" [] empty_history = (empty_history, inl empty_segment) /\
  exists t h',
    tokens empty_history = Some t /\
    append_segment "hi" [1; 2] empty_history = (h', inr tt) /\
    h' = appended "hi" [1; 2] t empty_history /\
    text h' = text empty_history +:+ "hi" /\
    text_spans h' =
      text_spans empty_history ++
      [(String.length (text empty_history),
        (String.length (text empty_history) + String.length "hi")%nat)] /\
    tokens h' = Some (last_n obs_dim (t ++ [1; 2])) /\
    completed h' = completed empty_history.
Proof.
  assert (Hr : reachable_history empty_history)
    by exact (reach_new "" None empty_history (new_TextHistory_empty None)).
  split; [exact Hr|].
  destruct (append_segment_contract empty_history "" [1; 2] Hr) as [Hrej1 _].
  destruct (append_segment_contract empty_history "hi" [] Hr) as [Hrej2 _].
  destruct (append_segment_contract empty_history "hi" [1; 2] Hr) as [_ Hacc].
  split; [apply Hrej1; left; reflexivity|].
  split; [apply Hrej2; right; reflexivity|].
  apply Hacc; discriminate.
Defined.

(** C6. After any run of accepted appends the token tensor has at most
    [obs_dim] = 8 entries, and it is the tail of everything appended
    (after the tokens the run started with): its length is the smaller
    of [obs_dim] and the total, so once the total exceeds [obs_dim]
    exactly the [obs_dim] newest tokens remain, in order, and only the
    oldest are dropped. *)
Theorem tokens_window (h0 h' : TextHistory) (segs : list (string * list Z)) :
  reachable_history h0 ->
  append_all segs h0 = (h', inr tt) ->
  obs_dim = 8%nat /\
  exists t0 t' dropped,
    tokens h0 = Some t0 /\ tokens h' = Some t' /\
    (length t' <= obs_dim)%nat /\
    t0 ++ concat (map snd segs) = dropped ++ t' /\
    length t' = Nat.min obs_dim (length (t0 ++ concat (map snd segs))).
Proof.
  intros Hr Hrun. split; [reflexivity|].
  destruct (reachable_history_wf h0 Hr) as [(t0 & Ht0 & Hlen) _].
  pose proof (append_all_tokens segs h0 h' t0 Ht0 Hlen Hrun) as Ht'.
  destruct (last_n_suffix obs_dim (t0 ++ concat (map snd segs))) as [dropped Hd].
  exists t0, (last_n obs_dim (t0 ++ concat (map snd segs))), dropped.
  repeat split; try assumption.
  - rewrite last_n_length. lia.
  - apply last_n_length.
Qed.

Lemma tokens_window_witness :
  exists h',
    append_all [("hi", [1; 2]); ("abc", [3; 4; 5]); ("hello", [6; 7; 8; 9; 10])]
      empty_history = (h', inr tt) /\
    tokens h' = Some [3; 4; 5; 6; 7; 8; 9; 10] /\
    exists t0 t' dropped,
      tokens empty_history = Some t0 /\ tokens h' = Some t' /\
      (length t' <= obs_dim)%nat /\
      t0 ++ [1; 2; 3; 4; 5; 6; 7; 8; 9; 10] = dropped ++ t' /\
      length t' = Nat.min obs_dim (length (t0 ++ [1; 2; 3; 4; 5; 6; 7; 8; 9; 10])).
Proof.
  eexists. split; [reflexivity|]. split; [reflexivity|].
  refine (proj2 (tokens_window empty_history _
            [("hi", [1; 2]); ("abc", [3; 4; 5]); ("hello", [6; 7; 8; 9; 10])] _ _)).
  - exact (reach_new "" None empty_history (new_TextHistory_empty None)).
  - reflexivity.
Defined.

(** C7. The constructor with a non-empty first segment does not build
    what an empty history followed by one [append_segment] builds: it
    stores the text and the tokens twice, starts the only span at the
    length of the text, and sets [completed]; with an empty text it
    leaves text and tokens empty. *)
Theorem constructor_doubles_first_segment :
  new_TextHistory "hi" (Some [1; 2]) =
    inr (mkTextHistory "hihi" [(2%nat, 4%nat)] (Some [1; 2; 1; 2]) (Some false)) /\
  append_segment "hi" [1; 2] empty_history =
    (mkTextHistory "hi" [(0%nat, 2%nat)] (Some [1; 2]) None, inr tt) /\
  (forall toks, new_TextHistory "" toks = inr empty_history) /\
  text empty_history = "" /\ tokens empty_history = Some [].
Proof. repeat split. Qed.

(** C9. For a reachable history [to_obs] returns an observation and a
    mask of length [obs_dim] = 8 each; every mask entry is 0, 1 or 2;
    a position covered by the span of index [i] holds 1 when [i] is
    even and 2 when it is odd, and a position no span covers holds 0.
    Nothing is assumed about where the spans end. *)
Theorem to_obs_shape (h : TextHistory) :
  reachable_history h ->
  obs_dim = 8%nat /\
  length (fst (to_obs h)) = obs_dim /\
  length (snd (to_obs h)) = obs_dim /\
  Forall mask_value (snd (to_obs h)) /\
  forall p : nat, (p < obs_dim)%nat ->
    (forall i sli, text_spans h !! i = Some sli -> covers sli p ->
       snd (to_obs h) !! p = Some (role i)) /\
    ((forall sli, sli ∈ text_spans h -> ~ covers sli p) ->
       snd (to_obs h) !! p = Some 0).
Proof.
  intros Hr. destruct (reachable_history_wf h Hr) as [(t & Ht & Hlen) (s & Hs)].
  split; [reflexivity|].
  assert (Hobs : length (fst (to_obs h)) = obs_dim).
  { unfold to_obs. rewrite Ht. cbn [fst].
    destruct (length t <? obs_dim)%nat eqn:E.
    - apply Nat.ltb_lt in E. unfold pad_right.
      rewrite length_app, length_replicate. lia.
    - apply Nat.ltb_ge in E. lia. }
  assert (Hmask : snd (to_obs h) =
                  paint_spans 0 (text_spans h) (replicate obs_dim 0)).
  { unfold to_obs in *. cbn [fst snd] in *. now rewrite Hobs. }
  split; [exact Hobs|]. rewrite Hmask.
  split; [now rewrite paint_spans_length, length_replicate|].
  split.
  { apply paint_spans_values, Forall_forall. intros x Hx.
    apply elem_of_replicate in Hx as [-> _]. now left. }
  intros p Hp. split.
  - intros i sli Hi Hcov.
    apply (paint_spans_inside s (String.length (text h)) 0 i p sli); try assumption.
    all: now rewrite length_replicate.
  - intros Hout. rewrite paint_spans_outside by assumption.
    now apply lookup_replicate_2.
Qed.

Lemma to_obs_shape_witness :
  reachable_history (mkTextHistory "hihello" [(0%nat, 2%nat); (2%nat, 7%nat)]
                       (Some [1; 2; 3; 4; 5]) None) /\
  to_obs (mkTextHistory "hihello" [(0%nat, 2%nat); (2%nat, 7%nat)]
            (Some [1; 2; 3; 4; 5]) None) =
    ([1; 2; 3; 4; 5; 0; 0; 0], [1; 1; 2; 2; 2; 2; 2; 0]) /\
  length (snd (to_obs (mkTextHistory "hihello" [(0%nat, 2%nat); (2%nat, 7%nat)]
                         (Some [1; 2; 3; 4; 5]) None))) = obs_dim.
Proof.
  assert (Hr : reachable_history
                 (mkTextHistory "hihello" [(0%nat, 2%nat); (2%nat, 7%nat)]
                    (Some [1; 2; 3; 4; 5]) None)).
  { apply (reach_append "hello" [3; 4; 5]
             (mkTextHistory "hi" [(0%nat, 2%nat)] (Some [1; 2]) None));
      [|reflexivity].
    apply (reach_append "hi" [1; 2] empty_history); [|reflexivity].
    exact (reach_new "" None empty_history (new_TextHistory_empty None)). }
  split; [exact Hr|]. split; [reflexivity|].
  exact (proj1 (proj2 (proj2 (to_obs_shape _ Hr)))).
Defined.

(** * Properties of [TextEnvironment] *)

Section EnvironmentProperties.

Context {Reward : Type}.
Implicit Types env : @TextEnvironment Reward.

Lemma set_history_same env : set_history (history env) env = env.
Proof. now destruct env. Qed.

(** [generate] on a history whose tokens are the tensor [t]. *)
Lemma generate_spec env (t : list Z) :
  tokens (history env) = Some t ->
  generate env =
  match model_generate (model env) t with
  | inl e => (env, inl e)
  | inr g =>
      match decode (tokenizer env) (drop (length t) g) with
      | inl e => (env, inl e)
      | inr rs =>
          if (String.length rs =? 0)%nat || (length (drop (length t) g) =? 0)%nat
          then (env, inl empty_segment)
          else (set_history (appended rs (drop (length t) g) t (history env)) env,
                inr (drop (length t) g))
      end
  end.
Proof.
  intros Ht. unfold generate, _generate, bind, gets, call, ret, on_history.
  rewrite Ht. destruct (model_generate (model env) t) as [e|g]; [reflexivity|].
  destruct (decode (tokenizer env) (drop (length t) g)) as [e|rs]; [reflexivity|].
  destruct ((String.length rs =? 0)%nat || (length (drop (length t) g) =? 0)%nat) eqn:G.
  - apply orb_true_iff in G. rewrite append_segment_rejects.
    + now rewrite set_history_same.
    + destruct G as [G|G]; [left; now apply string_length_zero
                           | right; now apply list_length_zero].
  - apply orb_false_iff in G as [G1 G2].
    rewrite (append_segment_accepts _ _ t); try assumption; [reflexivity| |].
    + intros ->. discriminate.
    + intros E. rewrite E in G2. discriminate.
Qed.

(** [step] on a text, on a history whose tokens are the tensor [t]. *)
Lemma step_spec env (s : string) (t : list Z) :
  tokens (history env) = Some t ->
  step (PyStr s) env =
  match encode (tokenizer env) s with
  | inl e => (env, inl e)
  | inr qt =>
      if (String.length s =? 0)%nat || (length qt =? 0)%nat
      then (env, inl empty_segment)
      else
        match generate (set_history (appended s qt t (history env)) env) with
        | (env2, inl e) => (env2, inl e)
        | (env2, inr rt) =>
            match reward_fn env2 (model env2) qt rt with
            | inl e => (env2, inl e)
            | inr w => (close_turn env2, inr (step_result env2 w))
            end
        end
  end.
Proof.
  intros Ht. unfold step. unfold bind at 1. unfold call at 1. cbn [py_str].
  unfold bind at 1. unfold gets at 1. rewrite Ht.
  unfold bind at 1. unfold bind at 1. unfold gets at 1.
  unfold bind at 1. unfold call at 1.
  destruct (encode (tokenizer env) s) as [e|qt]; [reflexivity|].
  unfold bind at 1. unfold on_history at 1.
  destruct ((String.length s =? 0)%nat || (length qt =? 0)%nat) eqn:G.
  - apply orb_true_iff in G. rewrite append_segment_rejects.
    + now rewrite set_history_same.
    + destruct G as [G|G]; [left; now apply string_length_zero
                           | right; now apply list_length_zero].
  - apply orb_false_iff in G as [G1 G2].
    rewrite (append_segment_accepts _ _ t); try assumption.
    2:{ intros ->. discriminate. }
    2:{ intros ->. discriminate. }
    unfold ret at 1. unfold bind at 1.
    destruct (generate _) as [env2 [e|rt]]; [reflexivity|].
    unfold bind, gets, call, modify, on_history, ret. cbn.
    destruct (reward_fn env2 (model env2) qt rt) as [e|w]; reflexivity.
Qed.

Lemma reset_spec env :
  reset env =
  (set_turn 0 (set_history empty_history env),
   inr (replicate obs_dim 0, replicate obs_dim 0)).
Proof. reflexivity. Qed.

Lemma step_coerce env (q : PyValue) :
  step q env =
  match py_str q with
  | inl e => (env, inl e)
  | inr s => step (PyStr s) env
  end.
Proof.
  unfold step. unfold bind at 1. unfold call at 1.
  destruct (py_str q) as [e|s]; [reflexivity|].
  unfold bind at 3. unfold call at 3. reflexivity.
Qed.

Lemma reachable_appended (h : TextHistory) (txt : string) (toks t : list Z) :
  reachable_history h -> tokens h = Some t ->
  (String.length txt =? 0)%nat || (length toks =? 0)%nat = false ->
  reachable_history (appended txt toks t h).
Proof.
  intros Hr Ht G. apply orb_false_iff in G as [G1 G2].
  apply (reach_append txt toks h); [assumption|].
  apply append_segment_accepts; try assumption.
  - intros ->. discriminate.
  - intros ->. discriminate.
Qed.

(** Whatever [generate] does, it only touches the history, and leaves
    a reachable one. *)
Lemma generate_frame env env' (r : Exn + list Z) :
  reachable_history (history env) ->
  generate env = (env', r) ->
  exists h', env' = set_history h' env /\ reachable_history h'.
Proof.
  intros Hr H. destruct (reachable_history_wf _ Hr) as [(t & Ht & _) _].
  rewrite (generate_spec env t Ht) in H.
  destruct (model_generate (model env) t) as [e|g].
  { injection H as <- <-. exists (history env). now rewrite set_history_same. }
  destruct (decode (tokenizer env) (drop (length t) g)) as [e|rs].
  { injection H as <- <-. exists (history env). now rewrite set_history_same. }
  destruct ((String.length rs =? 0)%nat || (length (drop (length t) g) =? 0)%nat) eqn:G.
  { injection H as <- <-. exists (history env). now rewrite set_history_same. }
  injection H as <- <-. eexists. split; [reflexivity|].
  now apply reachable_appended.
Qed.

(** The two ways a [step] call ends: it raises, having touched at most
    the history, or it closes the turn of a state that differs from the
    start at most in the history. *)
Lemma step_outcome env (q : PyValue) :
  reachable_history (history env) ->
  (exists e h', step q env = (set_history h' env, inl e) /\ reachable_history h') \/
  (exists w h', step q env = (close_turn (set_history h' env),
                              inr (step_result (set_history h' env) w)) /\
                reachable_history h').
Proof.
  intros Hr. destruct (reachable_history_wf _ Hr) as [(t & Ht & _) _].
  rewrite step_coerce. destruct (py_str q) as [e|s].
  { left. exists e, (history env). now rewrite set_history_same. }
  rewrite (step_spec env s t Ht).
  destruct (encode (tokenizer env) s) as [e|qt].
  { left. exists e, (history env). now rewrite set_history_same. }
  destruct ((String.length s =? 0)%nat || (length qt =? 0)%nat) eqn:G.
  { left. exists empty_segment, (history env). now rewrite set_history_same. }
  pose proof (reachable_appended _ s qt t Hr Ht G) as Hr1.
  destruct (generate (set_history (appended s qt t (history env)) env))
    as [env2 r] eqn:Hg.
  apply generate_frame in Hg as (h2 & -> & Hr2); [|exact Hr1].
  replace (set_history h2 (set_history (appended s qt t (history env)) env))
    with (set_history h2 env) by reflexivity.
  destruct r as [e|rt].
  { left. eauto. }
  destruct (reward_fn _ _ qt rt) as [e|w].
  - left. eauto.
  - right. eauto.
Qed.

Lemma new_TextEnvironment_inv (gym : Gym) (mdl : Model) (tk : Tokenizer)
    (rf : Model -> list Z -> list Z -> Exn + Reward) (mt : Z) env :
  new_TextEnvironment gym mdl tk rf mt = inr env ->
  env = mkTextEnvironment mdl tk rf mt 0 empty_history.
Proof.
  unfold new_TextEnvironment. rewrite new_TextHistory_empty. cbn [and_then].
  destruct (model_device mdl); [discriminate|]. cbn [and_then].
  destruct (Text_space gym obs_dim); [discriminate|]. cbn [and_then].
  destruct (reward_Box gym); [discriminate|]. cbn [and_then].
  destruct (vocab_size tk) as [|size]; [discriminate|]. cbn [and_then].
  destruct (observation_Box gym size obs_dim); [discriminate|]. cbn [and_then].
  intros H. now injection H as <-.
Qed.

Lemma reachable_env_history env : reachable_env env -> reachable_history (history env).
Proof.
  induction 1 as [gym mdl tk rf mt env Hnew | env _ IH | q env _ IH].
  - apply new_TextEnvironment_inv in Hnew as ->.
    exact (reach_new "" None _ (new_TextHistory_empty None)).
  - rewrite reset_spec. exact (reach_new "" None _ (new_TextHistory_empty None)).
  - destruct (step_outcome env q IH) as [(e & h' & -> & Hr) | (w & h' & -> & Hr)].
    + exact Hr.
    + now apply reach_completed.
Qed.

(** ** Claims about [reset] and [step] *)

(** C2 (as amended). [step] first applies [str] to its argument: when
    [str] raises, [step] raises the same exception and the environment
    is untouched; otherwise it goes on with the text [str] returned.
    [None] is not rejected: [str(None)] is the text ["None"]. *)
Theorem step_coerces_query env (q : PyValue) :
  py_str PyNone = inr "None"%string /\
  step q env =
  match py_str q with
  | inl e => (env, inl e)
  | inr s => step (PyStr s) env
  end.
Proof. split; [reflexivity | apply step_coerce]. Qed.

(** C3. [reset] sets [turn] to 0, installs the empty history (no text,
    no span, an empty token tensor) and returns eight zeros twice; a
    second [reset] changes nothing and returns the same.  The new
    history has no [completed] attribute: [__init__] returns before
    the assignment [self.completed = False]. *)
Theorem reset_leaves_completed_unset env :
  snd (reset env) = inr ([0; 0; 0; 0; 0; 0; 0; 0], [0; 0; 0; 0; 0; 0; 0; 0]) /\
  turn (fst (reset env)) = 0 /\
  history (fst (reset env)) = empty_history /\
  text (history (fst (reset env))) = ""%string /\
  text_spans (history (fst (reset env))) = [] /\
  tokens (history (fst (reset env))) = Some [] /\
  completed (history (fst (reset env))) = None /\
  reset (fst (reset env)) = reset env.
Proof. repeat split. Qed.

Lemma successful_steps_run env env' (rs : list StepResult) :
  reachable_history (history env) ->
  successful_steps env rs env' ->
  reachable_history (history env') /\
  max_turns env' = max_turns env /\
  turn env' = turn env + Z.of_nat (length rs) /\
  forall k r, rs !! k = Some r ->
    step_done r = (turn env + Z.of_nat (S k) >=? max_turns env).
Proof.
  intros Hr Hrun.
  induction Hrun as [env | env env1 env2 rs q r _ IH Hstep].
  - repeat split; try assumption; [simpl; lia | intros k r Hk; discriminate].
  - destruct (IH Hr) as (Hr1 & Hmax & Hturn & Hdone).
    destruct (step_outcome env1 q Hr1) as [(e & h' & E & _) | (w & h' & E & Hr2)];
      rewrite E in Hstep; [discriminate|].
    injection Hstep as <- <-.
    split; [now apply reach_completed|].
    split; [exact Hmax|].
    split; [cbn; rewrite Hturn, length_app; simpl; lia|].
    intros k r Hk. apply lookup_app_Some in Hk as [Hk | [Hlen Hk]].
    + now apply Hdone.
    + apply list_lookup_singleton_Some in Hk as [Hk <-].
      cbn. rewrite Hturn, Hmax. f_equal. lia.
Qed.

Lemma successful_steps_reachable env env' (rs : list StepResult) :
  successful_steps env rs env' -> reachable_env env -> reachable_env env'.
Proof.
  induction 1 as [env | env env1 env2 rs q r _ IH Hstep]; intros Hre; [assumption|].
  replace env2 with (fst (step q env1)) by now rewrite Hstep.
  apply reach_step, IH, Hre.
Qed.

(** C4. In a run of [step] calls that all return, started from a
    reachable state with [turn = 0], the [k]-th call (counting from 1)
    returns [done = (k >= max_turns)]: [True] at call number
    [max_turns], [False] before, and [True] ever after.  From any
    reachable state with [turn >= max_turns] a [step], whether it
    returns or raises, ends in such a state, and returns [done = True]
    when it returns; only [reset] lowers [turn]. *)
Theorem done_iff_turn_limit env env' (rs : list StepResult) :
  reachable_env env -> turn env = 0 -> successful_steps env rs env' ->
  turn env' = Z.of_nat (length rs) /\
  max_turns env' = max_turns env /\
  (forall k r, rs !! k = Some r ->
     step_done r = (Z.of_nat (S k) >=? max_turns env)) /\
  (forall k r, rs !! k = Some r -> Z.of_nat (S k) = max_turns env ->
     step_done r = true) /\
  (forall k r, rs !! k = Some r -> Z.of_nat (S k) < max_turns env ->
     step_done r = false) /\
  (forall j k r r', (j <= k)%nat -> rs !! j = Some r -> rs !! k = Some r' ->
     step_done r = true -> step_done r' = true) /\
  reachable_env env' /\
  (forall (e : @TextEnvironment Reward) q, reachable_env e -> max_turns e <= turn e ->
     max_turns (fst (step q e)) <= turn (fst (step q e)) /\
     forall r, snd (step q e) = inr r -> step_done r = true).
Proof.
  intros Hre H0 Hrun.
  destruct (successful_steps_run env env' rs (reachable_env_history env Hre) Hrun)
    as (Hr' & Hmax & Hturn & Hdone).
  rewrite H0 in Hturn, Hdone. simpl in Hturn.
  assert (Hflag : forall k r, rs !! k = Some r ->
            step_done r = (Z.of_nat (S k) >=? max_turns env)).
  { intros k r Hk. rewrite (Hdone k r Hk). f_equal. }
  split; [exact Hturn|]. split; [exact Hmax|]. split; [exact Hflag|].
  split; [|split; [|split; [|split]]].
  - intros k r Hk E. rewrite (Hflag k r Hk). apply Z.geb_le. lia.
  - intros k r Hk E. rewrite (Hflag k r Hk).
    destruct (Z.geb_spec (Z.of_nat (S k)) (max_turns env)); [lia | reflexivity].
  - intros j k r r' Hjk Hj Hk E. rewrite (Hflag j r Hj) in E.
    rewrite (Hflag k r' Hk). apply Z.geb_le. apply Z.geb_le in E. lia.
  - now apply (successful_steps_reachable env env' rs).
  - intros e q He Hdn.
    destruct (step_outcome e q (reachable_env_history e He))
      as [(x & h' & -> & _) | (w & h' & -> & _)].
    + split; [exact Hdn | intros r Hr; discriminate].
    + split.
      * cbn. lia.
      * intros r Hr. cbn in Hr. injection Hr as <-. cbn. apply Z.geb_le. lia.
Qed.

(** C8 (as amended). Take a [step] whose query has been appended.
    When the generation stage then fails, in whichever way [generate]
    raises (the model raises, [tokenizer.decode] raises, or the
    response is empty and [append_segment] rejects it), [step] raises
    the same exception, [turn] is unchanged, and the history holds the
    query segment and no response segment.  When instead the reward
    function raises, [step] raises the same exception, [turn] is
    unchanged, and the history holds the query segment and the
    response segment.  Nothing is rolled back. *)
Theorem failed_step_keeps_partial_history env (q : PyValue) (s : string) (qt t : list Z) :
  tokens (history env) = Some t ->
  py_str q = inr s ->
  encode (tokenizer env) s = inr qt ->
  s <> ""%string -> qt <> [] ->
  (* the generation stage fails: every way [generate] raises *)
  (forall env2 e,
     generate (set_history (appended s qt t (history env)) env) = (env2, inl e) ->
     env2 = set_history (appended s qt t (history env)) env /\
     step q env = (set_history (appended s qt t (history env)) env, inl e) /\
     turn (fst (step q env)) = turn env /\
     history (fst (step q env)) = appended s qt t (history env) /\
     text_spans (history (fst (step q env))) =
       text_spans (history env) ++
       [(String.length (text (history env)),
         String.length (text (history env) +:+ s))]) /\
  (* ... the model raises *)
  (forall e,
     model_generate (model env) (last_n obs_dim (t ++ qt)) = inl e ->
     snd (step q env) = inl e /\
     turn (fst (step q env)) = turn env /\
     history (fst (step q env)) = appended s qt t (history env) /\
     text_spans (history (fst (step q env))) =
       text_spans (history env) ++
       [(String.length (text (history env)),
         String.length (text (history env) +:+ s))]) /\
  (* ... [tokenizer.decode] raises *)
  (forall g e,
     model_generate (model env) (last_n obs_dim (t ++ qt)) = inr g ->
     decode (tokenizer env) (drop (length (last_n obs_dim (t ++ qt))) g) = inl e ->
     snd (step q env) = inl e /\
     turn (fst (step q env)) = turn env /\
     history (fst (step q env)) = appended s qt t (history env) /\
     text_spans (history (fst (step q env))) =
       text_spans (history env) ++
       [(String.length (text (history env)),
         String.length (text (history env) +:+ s))]) /\
  (* ... the response text or the response tokens are empty *)
  (forall g rs,
     model_generate (model env) (last_n obs_dim (t ++ qt)) = inr g ->
     decode (tokenizer env) (drop (length (last_n obs_dim (t ++ qt))) g) = inr rs ->
     rs = ""%string \/ drop (length (last_n obs_dim (t ++ qt))) g = [] ->
     snd (step q env) = inl empty_segment /\
     turn (fst (step q env)) = turn env /\
     history (fst (step q env)) = appended s qt t (history env) /\
     text_spans (history (fst (step q env))) =
       text_spans (history env) ++
       [(String.length (text (history env)),
         String.length (text (history env) +:+ s))]) /\
  (* the scoring stage fails *)
  (forall g rs e,
     model_generate (model env) (last_n obs_dim (t ++ qt)) = inr g ->
     decode (tokenizer env) (drop (length (last_n obs_dim (t ++ qt))) g) = inr rs ->
     rs <> ""%string ->
     drop (length (last_n obs_dim (t ++ qt))) g <> [] ->
     reward_fn env (model env) qt (drop (length (last_n obs_dim (t ++ qt))) g) = inl e ->
     snd (step q env) = inl e /\
     turn (fst (step q env)) = turn env /\
     history (fst (step q env)) =
       appended rs (drop (length (last_n obs_dim (t ++ qt))) g)
         (last_n obs_dim (t ++ qt)) (appended s qt t (history env)) /\
     text_spans (history (fst (step q env))) =
       text_spans (history env) ++
       [(String.length (text (history env)),
         String.length (text (history env) +:+ s));
        (String.length (text (history env) +:+ s),
         String.length ((text (history env) +:+ s) +:+ rs))]) /\
  (* ... stated on [generate]: it returned, the reward function raises *)
  (forall env2 rt e,
     generate (set_history (appended s qt t (history env)) env) = (env2, inr rt) ->
     reward_fn env (model env) qt rt = inl e ->
     step q env = (env2, inl e) /\
     turn env2 = turn env /\
     length (text_spans (history env2)) = (length (text_spans (history env)) + 2)%nat).
Proof.
  intros Ht Hq Henc Hs Hqt.
  set (env1 := set_history (appended s qt t (history env)) env).
  assert (Hstep : step q env =
                  match generate env1 with
                  | (env2, inl e) => (env2, inl e)
                  | (env2, inr rt) =>
                      match reward_fn env2 (model env2) qt rt with
                      | inl e => (env2, inl e)
                      | inr w => (close_turn env2, inr (step_result env2 w))
                      end
                  end).
  { now rewrite step_coerce, Hq, (step_spec env s t Ht), Henc, (guard_false _ _ Hs Hqt). }
  pose proof (generate_spec env1 (last_n obs_dim (t ++ qt)) eq_refl) as Hgen.
  change (model env1) with (model env) in Hgen.
  change (tokenizer env1) with (tokenizer env) in Hgen.
  rewrite Hstep. clear Hstep.
  split; [|split; [|split; [|split; [|split]]]].
  - intros env2 e H. rewrite H.
    assert (E : env2 = env1).
    { rewrite Hgen in H.
      destruct (model_generate (model env) (last_n obs_dim (t ++ qt))) as [x|g];
        [now injection H as <- |].
      destruct (decode (tokenizer env) (drop (length (last_n obs_dim (t ++ qt))) g))
        as [x|rs]; [now injection H as <- |].
      destruct ((String.length rs =? 0)%nat
                || (length (drop (length (last_n obs_dim (t ++ qt))) g) =? 0)%nat);
        [now injection H as <- | discriminate]. }
    subst env2. repeat split.
  - intros e Hg. rewrite Hgen, Hg. repeat split.
  - intros g e Hg Hd. rewrite Hgen, Hg, Hd. repeat split.
  - intros g rs Hg Hd Hempty. rewrite Hgen, Hg, Hd, (guard_true _ _ Hempty).
    repeat split.
  - intros g rs e Hg Hd Hrs Hrt Hrew. rewrite Hgen, Hg, Hd, (guard_false _ _ Hrs Hrt).
    cbn [model reward_fn set_history env1]. rewrite Hrew.
    repeat split. cbn. now rewrite <- app_assoc.
  - intros env2 rt e H Hrew. rewrite H.
    rewrite Hgen in H.
    destruct (model_generate (model env) (last_n obs_dim (t ++ qt))) as [x|g];
      [discriminate|].
    destruct (decode (tokenizer env) (drop (length (last_n obs_dim (t ++ qt))) g))
      as [x|rs]; [discriminate|].
    destruct ((String.length rs =? 0)%nat
              || (length (drop (length (last_n obs_dim (t ++ qt))) g) =? 0)%nat);
      [discriminate|].
    injection H as <- <-.
    cbn [model reward_fn set_history env1]. rewrite Hrew.
    repeat split. cbn. rewrite !length_app. simpl. lia.
Qed.


(** Where the code and the worked example of the specification agree:
    for a tokenizer that encodes ["hi"] as [[1;2]] and decodes
    [[3;4;5]] to a text of three characters, one character per token,
    a model whose continuation is always [[3;4;5]], and a reward
    function that returns, [reset] returns eight zeros twice and one
    [step("hi")] leaves the tokens [[1;2;3;4;5]], returns the mask
    [[1;1;2;2;2;0;0;0]] and [done = False], and [turn] is 1. *)
Theorem worked_example env (reply : string) (w : Reward) :
  max_turns env = 3 ->
  encode (tokenizer env) "hi" = inr [1; 2] ->
  (forall prompt, exists g,
     model_generate (model env) prompt = inr g /\ drop (length prompt) g = [3; 4; 5]) ->
  decode (tokenizer env) [3; 4; 5] = inr reply ->
  String.length reply = 3%nat ->
  reward_fn env (model env) [1; 2] [3; 4; 5] = inr w ->
  exists env1 env2 r,
    reset env = (env1, inr ([0; 0; 0; 0; 0; 0; 0; 0], [0; 0; 0; 0; 0; 0; 0; 0])) /\
    step (PyStr "hi") env1 = (env2, inr r) /\
    tokens (history env2) = Some [1; 2; 3; 4; 5] /\
    step_obs r = [1; 2; 3; 4; 5; 0; 0; 0] /\
    step_mask r = [1; 1; 2; 2; 2; 0; 0; 0] /\
    turn env2 = 1 /\
    step_done r = false /\
    completed (history env2) = Some false.
Proof.
  intros Hmax Henc Hgen Hdec Hlen Hrew.
  destruct reply as [|a [|b [|c [|d reply]]]]; try discriminate. clear Hlen.
  destruct (Hgen [1; 2]) as (g & Hg & Hd).
  set (env1 := set_turn 0 (set_history empty_history env)).
  exists env1. eexists _, _. split; [reflexivity|].
  rewrite (step_spec env1 "hi" [] eq_refl). cbn [env1 model tokenizer set_history set_turn].
  rewrite Henc. cbn [String.length length Nat.eqb orb].
  match goal with
  | |- context [generate ?e] => rewrite (generate_spec e [1; 2] eq_refl)
  end.
  cbn [env1 model tokenizer set_history set_turn].
  rewrite Hg. cbn [length] in Hd |- *. rewrite Hd, Hdec.
  cbn [String.length length Nat.eqb orb reward_fn model set_history set_turn].
  change (reward_fn env1 (model env1)) with (reward_fn env (model env)).
  rewrite Hrew. split; [reflexivity|]. cbn. rewrite Hmax. repeat split.
Qed.

End EnvironmentProperties.

(** ** The claims on the stub services *)

Lemma demo_env_reachable : reachable_env demo_env.
Proof.
  exact (reach_init stub_gym stub_model (stub_tokenizer "abc") stub_reward 3 demo_env eq_refl).
Qed.

Lemma stub_model_continues (prompt : list Z) :
  exists g, model_generate stub_model prompt = inr g /\ drop (length prompt) g = [3; 4; 5].
Proof. exists (prompt ++ [3; 4; 5]). split; [reflexivity | apply drop_app_length]. Qed.

Lemma demo_step1 : step (PyStr "hi") demo_env = (demo_env1, inr demo_result1).
Proof. vm_compute. reflexivity. Qed.

Lemma demo_step2 : step (PyStr "hi") demo_env1 = (demo_env2, inr demo_result2).
Proof. vm_compute. reflexivity. Qed.

Lemma demo_step3 : step (PyStr "hi") demo_env2 = (done_env, inr demo_result3).
Proof. vm_compute. reflexivity. Qed.

Lemma demo_run :
  successful_steps demo_env [demo_result1; demo_result2; demo_result3] done_env.
Proof.
  apply (run_snoc demo_env demo_env2 done_env [demo_result1; demo_result2]
           (PyStr "hi") demo_result3); [|exact demo_step3].
  apply (run_snoc demo_env demo_env1 demo_env2 [demo_result1]
           (PyStr "hi") demo_result2); [|exact demo_step2].
  apply (run_snoc demo_env demo_env demo_env1 [] (PyStr "hi") demo_result1);
    [apply run_nil | exact demo_step1].
Qed.

Lemma worked_example_witness :
  max_turns demo_env = 3 /\
  encode (tokenizer demo_env) "hi" = inr [1; 2] /\
  decode (tokenizer demo_env) [3; 4; 5] = inr "abc"%string /\
  exists env1 env2 r,
    reset demo_env = (env1, inr ([0; 0; 0; 0; 0; 0; 0; 0], [0; 0; 0; 0; 0; 0; 0; 0])) /\
    step (PyStr "hi") env1 = (env2, inr r) /\
    tokens (history env2) = Some [1; 2; 3; 4; 5] /\
    step_obs r = [1; 2; 3; 4; 5; 0; 0; 0] /\
    step_mask r = [1; 1; 2; 2; 2; 0; 0; 0] /\
    turn env2 = 1 /\
    step_done r = false /\
    completed (history env2) = Some false.
Proof.
  split; [reflexivity|]. split; [reflexivity|]. split; [reflexivity|].
  apply (worked_example demo_env "abc" 0).
  - reflexivity.
  - reflexivity.
  - exact stub_model_continues.
  - reflexivity.
  - reflexivity.
  - reflexivity.
Defined.

(** C1. The worked example on a tokenizer that maps ["hi"] to
    [[1;2]], a model that continues every prompt with [[3;4;5]] and
    [max_turns = 3], where the three response tokens decode to the
    five characters of ["hello"].  After [reset], [step("hi")] returns
    the observation [[1;2;3;4;5;0;0;0]] and [done = False], the tokens
    are [[1;2;3;4;5]] and [turn] is 1, but the mask is
    [[1;1;2;2;2;2;2;0]] and not [[1;1;2;2;2;0;0;0]]: [to_obs] paints
    the mask from [text_spans], which are character offsets, so the
    padding ids at positions 5 and 6 carry the mask value 2. *)
Lemma worked_example_long_reply :
  max_turns long_reply_env = 3 /\
  encode (tokenizer long_reply_env) "hi" = inr [1; 2] /\
  decode (tokenizer long_reply_env) [3; 4; 5] = inr "hello"%string /\
  (forall prompt, exists g,
     model_generate (model long_reply_env) prompt = inr g /\
     drop (length prompt) g = [3; 4; 5]) /\
  snd (reset long_reply_env) =
    inr ([0; 0; 0; 0; 0; 0; 0; 0], [0; 0; 0; 0; 0; 0; 0; 0]) /\
  exists env2 r,
    step (PyStr "hi") (fst (reset long_reply_env)) = (env2, inr r) /\
    tokens (history env2) = Some [1; 2; 3; 4; 5] /\
    text_spans (history env2) = [(0, 2); (2, 7)]%nat /\
    turn env2 = 1 /\
    step_done r = false /\
    step_obs r = [1; 2; 3; 4; 5; 0; 0; 0] /\
    step_mask r = [1; 1; 2; 2; 2; 2; 2; 0] /\
    step_mask r <> [1; 1; 2; 2; 2; 0; 0; 0] /\
    step_obs r !! 5%nat = Some 0 /\ step_mask r !! 5%nat = Some 2.
Proof.
  split; [reflexivity|]. split; [reflexivity|]. split; [reflexivity|].
  split; [exact stub_model_continues|]. split; [reflexivity|].
  exists (mkTextEnvironment stub_model (stub_tokenizer "hello") stub_reward 3 1
            (mkTextHistory "hihello" [(0, 2); (2, 7)]%nat (Some [1; 2; 3; 4; 5])
               (Some false))),
         (mkStepResult [1; 2; 3; 4; 5; 0; 0; 0] 0 false [1; 1; 2; 2; 2; 2; 2; 0]).
  split; [vm_compute; reflexivity|].
  repeat (split; [reflexivity|]).
  split; [discriminate|]. split; reflexivity.
Qed.

(** C2 as stated fails: [step(None)] does not raise; the query is the
    text ["None"]. *)
Lemma step_accepts_None :
  (forall e, snd (step PyNone demo_env) <> inl e) /\
  exists env' r,
    step PyNone demo_env = (env', inr r) /\
    text (history env') = "Noneabc"%string /\
    text_spans (history env') = [(0%nat, 4%nat); (4%nat, 7%nat)] /\
    turn env' = 1.
Proof.
  assert (H : step PyNone demo_env =
              (mkTextEnvironment stub_model (stub_tokenizer "abc") stub_reward 3 1
                 (mkTextHistory "Noneabc" [(0, 4); (4, 7)]%nat
                    (Some [78; 111; 110; 101; 3; 4; 5]) (Some false)),
               inr (mkStepResult [78; 111; 110; 101; 3; 4; 5; 0] 0 false
                      [1; 1; 1; 1; 2; 2; 2; 0])))
    by (vm_compute; reflexivity).
  split.
  - intros e. rewrite H. discriminate.
  - eexists _, _. split; [exact H|]. repeat split.
Qed.

Lemma done_iff_turn_limit_witness :
  reachable_env demo_env /\ turn demo_env = 0 /\
  successful_steps demo_env [demo_result1; demo_result2; demo_result3] done_env /\
  turn done_env = 3 /\
  step_done <$> [demo_result1; demo_result2; demo_result3] = [false; false; true] /\
  forall k r, [demo_result1; demo_result2; demo_result3] !! k = Some r ->
    step_done r = (Z.of_nat (S k) >=? max_turns demo_env).
Proof.
  split; [exact demo_env_reachable|]. split; [reflexivity|].
  split; [exact demo_run|]. split; [reflexivity|]. split; [reflexivity|].
  exact (proj1 (proj2 (proj2
           (done_iff_turn_limit demo_env done_env
              [demo_result1; demo_result2; demo_result3]
              demo_env_reachable eq_refl demo_run)))).
Defined.

Lemma no_model_step :
  step (PyStr "hi") no_model_env =
  (mkTextEnvironment failing_model (stub_tokenizer "abc") stub_reward 3 0
     (mkTextHistory "hi" [(0, 2)]%nat (Some [1; 2]) None),
   inl (Raised "RuntimeError")).
Proof. vm_compute. reflexivity. Qed.

Lemma no_reward_step :
  step (PyStr "hi") no_reward_env =
  (mkTextEnvironment stub_model (stub_tokenizer "abc") failing_reward 3 0
     (mkTextHistory "hiabc" [(0, 2); (2, 5)]%nat (Some [1; 2; 3; 4; 5]) None),
   inl (Raised "RuntimeError")).
Proof. vm_compute. reflexivity. Qed.

Lemma failed_step_keeps_partial_history_witness :
  (* the model raises *)
  (snd (step (PyStr "hi") no_model_env) = inl (Raised "RuntimeError") /\
   turn (fst (step (PyStr "hi") no_model_env)) = turn no_model_env /\
   text_spans (history (fst (step (PyStr "hi") no_model_env))) = [(0%nat, 2%nat)]) /\
  (* [tokenizer.decode] raises *)
  (snd (step (PyStr "hi") no_decode_env) = inl (Raised "UnicodeDecodeError") /\
   turn (fst (step (PyStr "hi") no_decode_env)) = turn no_decode_env /\
   text_spans (history (fst (step (PyStr "hi") no_decode_env))) = [(0%nat, 2%nat)]) /\
  (* the model adds nothing to the prompt *)
  (snd (step (PyStr "hi") echo_env) = inl empty_segment /\
   turn (fst (step (PyStr "hi") echo_env)) = turn echo_env /\
   text_spans (history (fst (step (PyStr "hi") echo_env))) = [(0%nat, 2%nat)]) /\
  (* the reward function raises *)
  (snd (step (PyStr "hi") no_reward_env) = inl (Raised "RuntimeError") /\
   turn (fst (step (PyStr "hi") no_reward_env)) = turn no_reward_env /\
   text_spans (history (fst (step (PyStr "hi") no_reward_env))) =
     [(0%nat, 2%nat); (2%nat, 5%nat)]).
Proof.
  split; [|split; [|split]].
  - assert (H := failed_step_keeps_partial_history no_model_env (PyStr "hi") "hi" [1; 2] []).
    destruct H as (_ & Hmodel & _); try reflexivity; try discriminate.
    destruct (Hmodel (Raised "RuntimeError")) as (A & B & _ & D); [reflexivity|].
    exact (conj A (conj B D)).
  - assert (H := failed_step_keeps_partial_history no_decode_env (PyStr "hi") "hi" [1; 2] []).
    destruct H as (_ & _ & Hdecode & _); try reflexivity; try discriminate.
    destruct (Hdecode [1; 2; 3; 4; 5] (Raised "UnicodeDecodeError"))
      as (A & B & _ & D); try reflexivity.
    exact (conj A (conj B D)).
  - assert (H := failed_step_keeps_partial_history echo_env (PyStr "hi") "hi" [1; 2] []).
    destruct H as (_ & _ & _ & Hempty & _); try reflexivity; try discriminate.
    destruct (Hempty [1; 2] "abc"%string) as (A & B & _ & D);
      try reflexivity; [now right|].
    exact (conj A (conj B D)).
  - assert (H := failed_step_keeps_partial_history no_reward_env (PyStr "hi") "hi" [1; 2] []).
    destruct H as (_ & _ & _ & _ & Hrew & _); try reflexivity; try discriminate.
    destruct (Hrew [1; 2; 3; 4; 5] "abc"%string (Raised "RuntimeError"))
      as (A & B & _ & D); try reflexivity; try discriminate.
    exact (conj A (conj B D)).
Defined.

(** C8 as stated fails for the scoring stage: when the reward function
    raises, the response segment has already been appended. *)
Lemma scoring_failure_keeps_response :
  exists env',
    step (PyStr "hi") no_reward_env = (env', inl (Raised "RuntimeError")) /\
    turn env' = 0 /\
    text (history env') = "hiabc"%string /\
    text_spans (history env') = [(0%nat, 2%nat); (2%nat, 5%nat)] /\
    tokens (history env') = Some [1; 2; 3; 4; 5] /\
    text_spans (history env') <> [(0%nat, 2%nat)].
Proof.
  eexists. split; [exact no_reward_step|]. repeat split. discriminate.
Qed.


(** * Further properties of [TextHistory] *)

Lemma string_app_assoc (a b c : string) : (a +:+ b) +:+ c = a +:+ (b +:+ c).
Proof.
  induction a as [|x a IH]; [reflexivity|].
  change (String x ((a +:+ b) +:+ c) = String x (a +:+ (b +:+ c))).
  now rewrite IH.
Qed.

Lemma string_app_empty (a b : string) : a +:+ b = ""%string -> a = ""%string /\ b = ""%string.
Proof. destruct a; simpl; intros H; [auto | discriminate]. Qed.

Lemma substring_prefix (x y : string) : substring 0 (String.length x) (x +:+ y) = x.
Proof.
  induction x as [|c x IH]; simpl.
  - now destruct y.
  - now rewrite IH.
Qed.

Lemma substring_skip (pre s : string) (m : nat) :
  substring (String.length pre) m (pre +:+ s) = substring 0 m s.
Proof. induction pre as [|c pre IH]; simpl; [reflexivity | exact IH]. Qed.

(** The text between the offsets of a segment is the segment. *)
Lemma substring_middle (pre x post : string) :
  substring (String.length pre)
    (String.length pre + String.length x - String.length pre)
    (pre +:+ (x +:+ post)) = x.
Proof.
  replace (String.length pre + String.length x - String.length pre)%nat
    with (String.length x) by lia.
  rewrite substring_skip. apply substring_prefix.
Qed.

Lemma string_app_nil_r (s : string) : s +:+ "" = s.
Proof.
  induction s as [|c s IH]; [reflexivity|].
  change (String c (s +:+ "") = String c s). now rewrite IH.
Qed.

Lemma substring_suffix (pre x : string) :
  substring (String.length pre)
    (String.length pre + String.length x - String.length pre) (pre +:+ x) = x.
Proof.
  pose proof (substring_middle pre x "") as H.
  now rewrite string_app_nil_r in H.
Qed.

Lemma last_text_segment_appended (txt : string) (toks t : list Z) (h : TextHistory) :
  last_text_segment (appended txt toks t h) = inr txt.
Proof.
  unfold last_text_segment, appended; cbn [text_spans text].
  rewrite last_snoc, string_length_app, substring_suffix.
  reflexivity.
Qed.

Lemma reachable_spans_text (h : TextHistory) :
  reachable_history h -> (text_spans h = [] <-> text h = ""%string).
Proof.
  induction 1 as [txt toks h Hnew | txt toks h h' _ _ Happ | b h _ IH].
  - apply new_TextHistory_inv in Hnew as [-> | (t & Ht & _ & ->)]; [easy|].
    cbn [text_spans text]. split; [discriminate|].
    intros E. apply string_app_empty in E as [E _]. contradiction.
  - apply append_segment_inv in Happ as (Ht & _ & t & _ & ->).
    cbn [text_spans text appended]. split.
    + intros E. destruct (text_spans h); discriminate.
    + intros E. apply string_app_empty in E as [_ E]. contradiction.
  - exact IH.
Qed.

Lemma spans_chain_lookup (s e j : nat) (sli : nat * nat) (sp : list (nat * nat)) :
  spans_chain s sp e -> sp !! j = Some sli ->
  (s <= fst sli)%nat /\ (fst sli < snd sli)%nat /\ (snd sli <= e)%nat.
Proof.
  revert s j. induction sp as [|[a b] sp IH]; intros s j Hc Hj; [discriminate|].
  destruct Hc as (-> & Hab & Hc). destruct j as [|j]; simpl in Hj.
  - injection Hj as <-. simpl. apply spans_chain_le in Hc. lia.
  - destruct (IH b j Hc Hj) as (H1 & H2 & H3). lia.
Qed.

Lemma spans_chain_ordered (s e i j : nat) (x y : nat * nat) (sp : list (nat * nat)) :
  spans_chain s sp e -> (i < j)%nat -> sp !! i = Some x -> sp !! j = Some y ->
  (snd x <= fst y)%nat.
Proof.
  revert s i j. induction sp as [|[a b] sp IH]; intros s i j Hc Hij Hi Hj; [discriminate|].
  destruct Hc as (-> & Hab & Hc).
  destruct j as [|j]; [lia|]. simpl in Hj. destruct i as [|i]; simpl in Hi.
  - injection Hi as <-. simpl. now destruct (spans_chain_lookup b e j y sp Hc Hj).
  - apply (IH b i j); [assumption | lia | assumption | assumption].
Qed.

Lemma join_texts_split (texts : list string) (i : nat) (x : string) :
  texts !! i = Some x ->
  join_texts texts = join_texts (take i texts) +:+ (x +:+ join_texts (drop (S i) texts)).
Proof.
  revert i. induction texts as [|y texts IH]; intros i Hi; [discriminate|].
  destruct i as [|i]; simpl in Hi.
  - injection Hi as <-. reflexivity.
  - simpl. rewrite (IH i Hi). now rewrite string_app_assoc.
Qed.

Lemma spans_from_lookup (off i : nat) (x : string) (texts : list string) :
  texts !! i = Some x ->
  spans_from off texts !! i =
  Some ((off + String.length (join_texts (take i texts)))%nat,
        (off + String.length (join_texts (take i texts)) + String.length x)%nat).
Proof.
  revert off i. induction texts as [|y texts IH]; intros off i Hi; [discriminate|].
  destruct i as [|i]; simpl in Hi.
  - injection Hi as <-. simpl. now rewrite Nat.add_0_r.
  - simpl. rewrite (IH _ i Hi), string_length_app. do 2 f_equal; lia.
Qed.

Lemma spans_from_length (off : nat) (texts : list string) :
  length (spans_from off texts) = length texts.
Proof. revert off. induction texts as [|y texts IH]; intros off; simpl; auto. Qed.

(** Where a run of accepted appends puts the texts and the spans. *)
Lemma append_all_layout (segs : list (string * list Z)) (h h' : TextHistory) :
  append_all segs h = (h', inr tt) ->
  text h' = text h +:+ join_texts (map fst segs) /\
  text_spans h' =
    text_spans h ++ spans_from (String.length (text h)) (map fst segs) /\
  completed h' = completed h.
Proof.
  revert h. induction segs as [|[txt toks] segs IH]; intros h Hrun.
  - simpl in Hrun. injection Hrun as <-. simpl.
    rewrite app_nil_r, string_app_nil_r. repeat split.
  - simpl in Hrun. unfold bind in Hrun.
    destruct (append_segment txt toks h) as [h1 [e|[]]] eqn:E; [discriminate|].
    apply append_segment_inv in E as (_ & _ & t & _ & ->).
    destruct (IH _ Hrun) as (Ht & Hs & Hc). cbn [appended text text_spans completed] in *.
    rewrite Ht, Hs, Hc. simpl. rewrite string_app_assoc, <- app_assoc, string_length_app.
    repeat split.
Qed.

(** X1. Round trip of [append_segment] and [last_text_segment]: after
    an accepted append the last text segment is the text that was
    appended, whatever the history held before. *)
Theorem last_text_segment_after_append
    (h h' : TextHistory) (txt : string) (toks : list Z) :
  append_segment txt toks h = (h', inr tt) -> last_text_segment h' = inr txt.
Proof.
  intros H. apply append_segment_inv in H as (_ & _ & t & _ & ->).
  apply last_text_segment_appended.
Qed.

Lemma last_text_segment_after_append_witness :
  append_segment "abc" [3; 4; 5] (mkTextHistory "hi" [(0, 2)]%nat (Some [1; 2]) None) =
    (mkTextHistory "hiabc" [(0, 2); (2, 5)]%nat (Some [1; 2; 3; 4; 5]) None, inr tt) /\
  last_text_segment (mkTextHistory "hiabc" [(0, 2); (2, 5)]%nat (Some [1; 2; 3; 4; 5]) None) =
    inr "abc"%string.
Proof.
  split; [reflexivity|].
  apply (last_text_segment_after_append
           (mkTextHistory "hi" [(0, 2)]%nat (Some [1; 2]) None) _ "abc" [3; 4; 5]).
  reflexivity.
Defined.

(** X2. On a reachable history [last_text_segment] raises (the
    [IndexError] of [text_spans[-1]]) exactly when nothing has been
    stored: no span is recorded if and only if the text is empty. *)
Theorem last_text_segment_raises_iff_empty (h : TextHistory) :
  reachable_history h ->
  (text_spans h = [] <-> text h = ""%string) /\
  (last_text_segment h = inl (Raised "IndexError") <-> text h = ""%string) /\
  (text h <> ""%string -> exists seg, last_text_segment h = inr seg).
Proof.
  intros Hr. pose proof (reachable_spans_text h Hr) as Hst.
  split; [exact Hst|].
  assert (Hlast : last_text_segment h = inl (Raised "IndexError") <-> text_spans h = []).
  { unfold last_text_segment. destruct (last (text_spans h)) as [[a b]|] eqn:E.
    - split; [discriminate|]. intros E'. rewrite E' in E. discriminate.
    - split; [|reflexivity]. intros _. now apply last_None. }
  split; [now rewrite Hlast|].
  intros Hne. unfold last_text_segment.
  destruct (last (text_spans h)) as [[a b]|] eqn:E; [eauto|].
  apply last_None in E. apply Hst in E. contradiction.
Qed.

Lemma last_text_segment_raises_iff_empty_witness :
  reachable_history empty_history /\
  last_text_segment empty_history = inl (Raised "IndexError").
Proof.
  assert (Hr : reachable_history empty_history)
    by exact (reach_new "" None empty_history (new_TextHistory_empty None)).
  split; [exact Hr|].
  apply (proj1 (proj2 (last_text_segment_raises_iff_empty empty_history Hr))).
  reflexivity.
Defined.

(** X3. After a run of accepted appends the text is the old text
    followed by the appended texts in order, there is one more span
    per append, and every appended text can be read back from the text
    through its span. *)
Theorem appended_texts_recoverable
    (h0 h' : TextHistory) (segs : list (string * list Z)) :
  append_all segs h0 = (h', inr tt) ->
  text h' = text h0 +:+ join_texts (map fst segs) /\
  length (text_spans h') = (length (text_spans h0) + length segs)%nat /\
  forall i seg, segs !! i = Some seg ->
    exists a b,
      text_spans h' !! (length (text_spans h0) + i)%nat = Some (a, b) /\
      substring a (b - a) (text h') = fst seg.
Proof.
  intros Hrun. destruct (append_all_layout segs h0 h' Hrun) as (Ht & Hs & _).
  split; [exact Ht|]. split.
  { rewrite Hs, length_app, spans_from_length, length_map. reflexivity. }
  intros i seg Hi.
  assert (Hi' : map fst segs !! i = Some (fst seg)).
  { change (map fst segs) with (fst <$> segs). rewrite list_lookup_fmap, Hi. reflexivity. }
  eexists _, _. split.
  - rewrite Hs, lookup_app_r by lia.
    replace (length (text_spans h0) + i - length (text_spans h0))%nat with i by lia.
    apply spans_from_lookup, Hi'.
  - rewrite Ht, (join_texts_split _ i _ Hi'), <- string_app_assoc.
    rewrite <- string_length_app.
    apply substring_middle.
Qed.

Lemma appended_texts_recoverable_witness :
  exists h',
    append_all [("hi", [1; 2]); ("abc", [3; 4; 5])] empty_history = (h', inr tt) /\
    text h' = "hiabc"%string /\
    length (text_spans h') = 2%nat.
Proof.
  eexists. split; [reflexivity|].
  destruct (appended_texts_recoverable empty_history _
              [("hi", [1; 2]); ("abc", [3; 4; 5])] eq_refl) as (Ht & Hl & _).
  split; [exact Ht | exact Hl].
Defined.

(** X4. The spans of a reachable history are non-empty ranges inside
    the text, in increasing order and without overlap: a later span
    starts where an earlier one has ended, or after. *)
Theorem spans_increasing (h : TextHistory) (i j : nat) (x y : nat * nat) :
  reachable_history h ->
  text_spans h !! i = Some x -> text_spans h !! j = Some y -> (i < j)%nat ->
  (fst x < snd x)%nat /\ (snd x <= fst y)%nat /\ (fst y < snd y)%nat /\
  (snd y <= String.length (text h))%nat.
Proof.
  intros Hr Hi Hj Hij. destruct (reachable_history_wf h Hr) as [_ (s & Hs)].
  destruct (spans_chain_lookup _ _ _ _ _ Hs Hi) as (_ & Hx & _).
  destruct (spans_chain_lookup _ _ _ _ _ Hs Hj) as (_ & Hy & Hye).
  pose proof (spans_chain_ordered _ _ _ _ _ _ _ Hs Hij Hi Hj). lia.
Qed.

Lemma spans_increasing_witness :
  reachable_history (mkTextHistory "hiabc" [(0, 2); (2, 5)]%nat (Some [1; 2; 3; 4; 5]) None) /\
  (0 < 2)%nat /\ (2 <= 2)%nat /\ (2 < 5)%nat /\ (5 <= 5)%nat.
Proof.
  assert (Hr : reachable_history
                 (mkTextHistory "hiabc" [(0, 2); (2, 5)]%nat (Some [1; 2; 3; 4; 5]) None)).
  { apply (reach_append "abc" [3; 4; 5]
             (mkTextHistory "hi" [(0%nat, 2%nat)] (Some [1; 2]) None));
      [|reflexivity].
    apply (reach_append "hi" [1; 2] empty_history); [|reflexivity].
    exact (reach_new "" None empty_history (new_TextHistory_empty None)). }
  split; [exact Hr|].
  exact (spans_increasing _ 0 1 (0, 2)%nat (2, 5)%nat Hr eq_refl eq_refl (le_n 1)).
Defined.

(** X5. The constructor returns an object exactly when the text is
    empty or the tokens are a non-empty tensor; with a non-empty text
    it raises the [TypeError] of [len(None)] for [tokens = None] and
    the [ValueError] of [append_segment] for an empty tensor. *)
Theorem constructor_succeeds_iff (txt : string) (toks : option (list Z)) :
  ((exists h, new_TextHistory txt toks = inr h) <->
   (txt = ""%string \/ exists t, toks = Some t /\ t <> [])) /\
  (txt <> ""%string -> toks = None -> new_TextHistory txt toks = inl TypeError) /\
  (txt <> ""%string -> toks = Some [] -> new_TextHistory txt toks = inl empty_segment).
Proof.
  assert (Hnone : txt <> ""%string -> new_TextHistory txt None = inl TypeError).
  { intros Ht. unfold new_TextHistory, TextHistory_init.
    destruct (String.length txt =? 0)%nat eqn:E; [|reflexivity].
    apply string_length_zero in E. contradiction. }
  assert (Hnil : txt <> ""%string -> new_TextHistory txt (Some []) = inl empty_segment).
  { intros Ht. unfold new_TextHistory, TextHistory_init.
    destruct (String.length txt =? 0)%nat eqn:E.
    { apply string_length_zero in E. contradiction. }
    unfold bind at 1 2 3 4; simpl.
    rewrite append_segment_rejects by auto. reflexivity. }
  split; [|split].
  - split.
    + intros [h Hh]. destruct (decide (txt = ""%string)) as [|Ht]; [now left|right].
      destruct toks as [[|z t]|].
      * rewrite (Hnil Ht) in Hh. discriminate.
      * exists (z :: t). split; [reflexivity | discriminate].
      * rewrite (Hnone Ht) in Hh. discriminate.
    + intros [-> | (t & -> & Ht)].
      * eexists. apply new_TextHistory_empty.
      * destruct (decide (txt = ""%string)) as [->|Hx].
        -- eexists. apply new_TextHistory_empty.
        -- eexists. now apply new_TextHistory_nonempty.
  - intros Ht ->. now apply Hnone.
  - intros Ht ->. now apply Hnil.
Qed.

Lemma constructor_succeeds_iff_witness :
  new_TextHistory "hi" None = inl TypeError /\
  new_TextHistory "hi" (Some []) = inl empty_segment.
Proof.
  destruct (constructor_succeeds_iff "hi" None) as (_ & Hnone & _).
  destruct (constructor_succeeds_iff "hi" (Some [])) as (_ & _ & Hnil).
  split; [apply Hnone | apply Hnil]; (discriminate || reflexivity).
Defined.

(** X6. Whatever non-empty first segment the constructor is given, the
    object it builds holds the text twice and the tokens twice (cut to
    the last [obs_dim]), records the single span of the second copy,
    and so reads back the segment as its last text segment. *)
Theorem constructor_first_segment (txt : string) (toks : list Z) :
  txt <> ""%string -> toks <> [] ->
  exists h,
    new_TextHistory txt (Some toks) = inr h /\
    text h = txt +:+ txt /\
    tokens h = Some (last_n obs_dim (toks ++ toks)) /\
    text_spans h = [(String.length txt, (2 * String.length txt)%nat)] /\
    completed h = Some false /\
    last_text_segment h = inr txt.
Proof.
  intros Ht Hk. eexists. split; [now apply new_TextHistory_nonempty|].
  cbn [text tokens text_spans completed]. rewrite string_length_app.
  repeat split.
  - do 3 f_equal. lia.
  - unfold last_text_segment. cbn [text_spans text last].
    now rewrite substring_suffix.
Qed.

Lemma constructor_first_segment_witness :
  exists h,
    new_TextHistory "hi" (Some [1; 2]) = inr h /\
    text h = "hihi"%string /\
    last_text_segment h = inr "hi"%string.
Proof.
  destruct (constructor_first_segment "hi" [1; 2]) as (h & Hn & Ht & _ & _ & _ & Hl);
    [discriminate | discriminate |].
  exists h. split; [exact Hn|]. split; [exact Ht | exact Hl].
Defined.

(** ** Histories that grow from an empty one *)

Lemma grows_trans (h0 h1 h2 : TextHistory) : grows h0 h1 -> grows h1 h2 -> grows h0 h2.
Proof.
  intros H01 H12. induction H12 as [h | txt toks h1 h h' _ IH Happ | b h1 h _ IH].
  - exact H01.
  - exact (grows_append txt toks h0 h h' (IH H01) Happ).
  - exact (grows_completed b h0 h (IH H01)).
Qed.

Lemma grows_appended (h : TextHistory) (txt : string) (toks t : list Z) :
  tokens h = Some t ->
  (String.length txt =? 0)%nat || (length toks =? 0)%nat = false ->
  grows h (appended txt toks t h).
Proof.
  intros Ht G. apply orb_false_iff in G as [G1 G2].
  apply (grows_append txt toks h h); [apply grows_refl|].
  apply append_segment_accepts; try assumption.
  - intros ->. discriminate.
  - intros ->. discriminate.
Qed.

Lemma grows_reachable (h0 h : TextHistory) :
  grows h0 h -> reachable_history h0 -> reachable_history h.
Proof.
  induction 1 as [h | txt toks h0 h h' _ IH Happ | b h0 h _ IH]; intros Hr.
  - exact Hr.
  - exact (reach_append txt toks h h' (IH Hr) Happ).
  - exact (reach_completed b h (IH Hr)).
Qed.

Lemma grows_chain (s : nat) (h0 h : TextHistory) :
  grows h0 h ->
  spans_chain s (text_spans h0) (String.length (text h0)) ->
  spans_chain s (text_spans h) (String.length (text h)).
Proof.
  induction 1 as [h | txt toks h0 h h' _ IH Happ | b h0 h _ IH]; intros Hc.
  - exact Hc.
  - apply append_segment_inv in Happ as (Ht & _ & t & _ & ->).
    cbn [appended text_spans text]. apply spans_chain_snoc; [exact (IH Hc)|].
    rewrite string_length_app. destruct txt; [contradiction | simpl; lia].
  - exact (IH Hc).
Qed.

Lemma spans_chain_cover (s e p : nat) (sp : list (nat * nat)) :
  spans_chain s sp e -> (s <= p)%nat -> (p < e)%nat ->
  exists j sli, sp !! j = Some sli /\ covers sli p.
Proof.
  revert s. induction sp as [|[a b] sp IH]; simpl; intros s Hc Hs He.
  - lia.
  - destruct Hc as (-> & Hab & Hc).
    destruct (Nat.lt_ge_cases p b) as [Hpb | Hpb].
    + exists 0%nat, (s, b). split; [reflexivity | split; simpl; lia].
    + destruct (IH b Hc Hpb He) as (j & sli & Hj & Hcov).
      exists (S j), sli. split; assumption.
Qed.

Lemma role_nonzero (i : nat) : role i <> 0.
Proof. unfold role. destruct (Nat.even i); discriminate. Qed.

Lemma to_obs_mask (h : TextHistory) :
  reachable_history h ->
  snd (to_obs h) = paint_spans 0 (text_spans h) (replicate obs_dim 0).
Proof.
  intros Hr. destruct (reachable_history_wf h Hr) as [(t & Ht & Hlen) _].
  unfold to_obs. rewrite Ht. cbn [snd]. f_equal. f_equal.
  destruct (length t <? obs_dim)%nat eqn:E.
  - apply Nat.ltb_lt in E. unfold pad_right.
    rewrite length_app, length_replicate. lia.
  - apply Nat.ltb_ge in E. lia.
Qed.

Lemma to_obs_set_completed (c : option bool) (h : TextHistory) :
  to_obs (set_completed c h) = to_obs h.
Proof. reflexivity. Qed.

Section EnvironmentRuns.

Context {Reward : Type}.
Implicit Types env : @TextEnvironment Reward.

(** What a [step] that returns has gone through. *)
Lemma step_success_inv env env' (q : PyValue) (t : list Z) (r : StepResult) :
  tokens (history env) = Some t ->
  step q env = (env', inr r) ->
  exists s qt g rs w,
    py_str q = inr s /\
    encode (tokenizer env) s = inr qt /\
    (String.length s =? 0)%nat || (length qt =? 0)%nat = false /\
    model_generate (model env) (last_n obs_dim (t ++ qt)) = inr g /\
    decode (tokenizer env) (drop (length (last_n obs_dim (t ++ qt))) g) = inr rs /\
    (String.length rs =? 0)%nat
      || (length (drop (length (last_n obs_dim (t ++ qt))) g) =? 0)%nat = false /\
    reward_fn env (model env) qt (drop (length (last_n obs_dim (t ++ qt))) g) = inr w /\
    env' = close_turn
             (set_history
                (appended rs (drop (length (last_n obs_dim (t ++ qt))) g)
                   (last_n obs_dim (t ++ qt)) (appended s qt t (history env))) env) /\
    r = step_result
          (set_history
             (appended rs (drop (length (last_n obs_dim (t ++ qt))) g)
                (last_n obs_dim (t ++ qt)) (appended s qt t (history env))) env) w.
Proof.
  intros Ht H. rewrite step_coerce in H.
  destruct (py_str q) as [e|s] eqn:Hq; [discriminate|].
  rewrite (step_spec env s t Ht) in H.
  destruct (encode (tokenizer env) s) as [e|qt] eqn:Henc; [discriminate|].
  destruct ((String.length s =? 0)%nat || (length qt =? 0)%nat) eqn:G; [discriminate|].
  rewrite (generate_spec (set_history (appended s qt t (history env)) env)
             (last_n obs_dim (t ++ qt)) eq_refl) in H.
  cbn [model tokenizer set_history] in H.
  destruct (model_generate (model env) (last_n obs_dim (t ++ qt))) as [e|g] eqn:Hg;
    [discriminate|].
  destruct (decode (tokenizer env) (drop (length (last_n obs_dim (t ++ qt))) g))
    as [e|rs] eqn:Hd; [discriminate|].
  destruct ((String.length rs =? 0)%nat
            || (length (drop (length (last_n obs_dim (t ++ qt))) g) =? 0)%nat) eqn:G2;
    [discriminate|].
  cbn [model reward_fn set_history] in H.
  destruct (reward_fn env (model env) qt (drop (length (last_n obs_dim (t ++ qt))) g))
    as [e|w] eqn:Hw; [discriminate|].
  injection H as <- <-.
  exists s, qt, g, rs, w. repeat split; assumption.
Qed.

(** Every [step], returning or raising, leaves the configuration
    alone and a history grown from the one it found. *)
Lemma step_grows env (q : PyValue) :
  reachable_history (history env) ->
  grows (history env) (history (fst (step q env))) /\
  model (fst (step q env)) = model env /\
  tokenizer (fst (step q env)) = tokenizer env /\
  reward_fn (fst (step q env)) = reward_fn env /\
  max_turns (fst (step q env)) = max_turns env /\
  (turn (fst (step q env)) =
   match snd (step q env) with inr _ => turn env + 1 | inl _ => turn env end).
Proof.
  intros Hr. destruct (reachable_history_wf _ Hr) as [(t & Ht & _) _].
  rewrite step_coerce. destruct (py_str q) as [e|s].
  { repeat split. apply grows_refl. }
  rewrite (step_spec env s t Ht).
  destruct (encode (tokenizer env) s) as [e|qt].
  { repeat split. apply grows_refl. }
  destruct ((String.length s =? 0)%nat || (length qt =? 0)%nat) eqn:G.
  { repeat split. apply grows_refl. }
  pose proof (grows_appended _ s qt t Ht G) as G1.
  rewrite (generate_spec (set_history (appended s qt t (history env)) env)
             (last_n obs_dim (t ++ qt)) eq_refl).
  cbn [model tokenizer set_history].
  destruct (model_generate (model env) (last_n obs_dim (t ++ qt))) as [e|g].
  { repeat split. exact G1. }
  destruct (decode (tokenizer env) (drop (length (last_n obs_dim (t ++ qt))) g))
    as [e|rs].
  { repeat split. exact G1. }
  destruct ((String.length rs =? 0)%nat
            || (length (drop (length (last_n obs_dim (t ++ qt))) g) =? 0)%nat) eqn:G2.
  { repeat split. exact G1. }
  pose proof (grows_appended (appended s qt t (history env)) rs
                (drop (length (last_n obs_dim (t ++ qt))) g)
                (last_n obs_dim (t ++ qt)) eq_refl G2) as G3.
  pose proof (grows_trans _ _ _ G1 G3) as G13.
  cbn [model reward_fn set_history].
  destruct (reward_fn env (model env) qt (drop (length (last_n obs_dim (t ++ qt))) g))
    as [e|w].
  { repeat split. exact G13. }
  repeat split. cbn. now apply grows_completed.
Qed.

Lemma reachable_env_grown env : reachable_env env -> grows empty_history (history env).
Proof.
  induction 1 as [gym mdl tk rf mt env Hnew | env _ IH | q env _ IH].
  - apply new_TextEnvironment_inv in Hnew as ->. apply grows_refl.
  - rewrite reset_spec. apply grows_refl.
  - apply (grows_trans _ _ _ IH). apply step_grows.
    apply (grows_reachable _ _ IH).
    exact (reach_new "" None _ (new_TextHistory_empty None)).
Qed.

Lemma reachable_env_chain env :
  reachable_env env ->
  spans_chain 0 (text_spans (history env)) (String.length (text (history env))).
Proof.
  intros Hre. apply (grows_chain 0 empty_history); [now apply reachable_env_grown|].
  reflexivity.
Qed.

End EnvironmentRuns.

(** * Further properties of [TextEnvironment] *)

Section EnvironmentExtras.

Context {Reward : Type}.
Implicit Types env : @TextEnvironment Reward.

Lemma returned_raised (e : Exn) (outs : list (Exn + @StepResult Reward)) :
  returned (inl e :: outs) = returned outs.
Proof. reflexivity. Qed.

Lemma returned_result (r : @StepResult Reward) (outs : list (Exn + StepResult)) :
  returned (inr r :: outs) = r :: returned outs.
Proof. reflexivity. Qed.

Lemma run_steps_frame env (queries : list PyValue) :
  reachable_env env ->
  reachable_env (fst (run_steps queries env)) /\
  model (fst (run_steps queries env)) = model env /\
  tokenizer (fst (run_steps queries env)) = tokenizer env /\
  reward_fn (fst (run_steps queries env)) = reward_fn env /\
  max_turns (fst (run_steps queries env)) = max_turns env /\
  turn (fst (run_steps queries env)) =
    turn env + Z.of_nat (length (returned (snd (run_steps queries env)))) /\
  length (snd (run_steps queries env)) = length queries.
Proof.
  revert env. induction queries as [|q queries IH]; intros env Hre.
  - simpl. repeat split; [assumption | lia].
  - cbn [run_steps].
    pose proof (step_grows env q (reachable_env_history env Hre))
      as (_ & Hm & Htk & Hrf & Hmt & Hturn).
    pose proof (reach_step q env Hre) as Hre1.
    destruct (step q env) as [env1 r] eqn:Hstep. cbn [fst snd] in *.
    destruct (IH env1 Hre1) as (H1 & H2 & H3 & H4 & H5 & H6 & H7).
    destruct (run_steps queries env1) as [env2 rs]. cbn [fst snd] in *.
    split; [exact H1|]. split; [congruence|]. split; [congruence|].
    split; [congruence|]. split; [congruence|]. split.
    + rewrite H6, Hturn. destruct r as [e|r].
      * now rewrite returned_raised.
      * rewrite returned_result. simpl length. lia.
    + simpl. now rewrite H7.
Qed.

(** X7. In every state an environment reaches, the mask is zero
    exactly at the positions from the number of characters of the
    stored text on: the non-zero part of the mask follows the length
    of the text, not the number of tokens in the observation. *)
Theorem mask_zero_beyond_text env (p : nat) :
  reachable_env env -> (p < obs_dim)%nat ->
  (snd (to_obs (history env)) !! p = Some 0 <->
   (String.length (text (history env)) <= p)%nat).
Proof.
  intros Hre Hp. pose proof (reachable_env_history env Hre) as Hr.
  pose proof (reachable_env_chain env Hre) as Hc.
  rewrite (to_obs_mask _ Hr). split.
  - intros Hz. destruct (Nat.le_gt_cases (String.length (text (history env))) p)
      as [Hle | Hlt]; [exact Hle | exfalso].
    destruct (spans_chain_cover _ _ p _ Hc (Nat.le_0_l p) Hlt) as (j & sli & Hj & Hcov).
    rewrite (paint_spans_inside _ _ 0 j p sli _ _ Hc Hj Hcov) in Hz
      by now rewrite length_replicate.
    injection Hz as Hz. now apply (role_nonzero (0 + j)).
  - intros Hle. rewrite paint_spans_outside; [now apply lookup_replicate_2|].
    intros sli Hin [_ Hcov]. apply list_elem_of_lookup_1 in Hin as [j Hj].
    destruct (spans_chain_lookup _ _ _ _ _ Hc Hj) as (_ & _ & He). lia.
Qed.

(** X8. Once the first stored segment has at least [obs_dim]
    characters, every position of the mask is 1, whatever has been
    appended after it. *)
Theorem long_first_segment_masks_all env (sli : nat * nat) :
  reachable_env env ->
  text_spans (history env) !! 0%nat = Some sli ->
  (obs_dim <= snd sli)%nat ->
  snd (to_obs (history env)) = replicate obs_dim 1.
Proof.
  intros Hre H0 Hlong. pose proof (reachable_env_history env Hre) as Hr.
  pose proof (reachable_env_chain env Hre) as Hc.
  rewrite (to_obs_mask _ Hr). apply list_eq. intros p.
  destruct (Nat.lt_ge_cases p obs_dim) as [Hp | Hp].
  - rewrite (paint_spans_inside _ _ 0 0 p sli _ _ Hc H0).
    + symmetry. now apply lookup_replicate_2.
    + destruct (spans_chain_lookup _ _ _ _ _ Hc H0) as (Hs & _ & _).
      destruct (text_spans (history env)) as [|[a b] sp]; [discriminate|].
      injection H0 as <-. destruct Hc as (-> & _ & _). split; simpl in *; lia.
    + now rewrite length_replicate.
  - rewrite !(proj2 (lookup_ge_None _ _)); [reflexivity | |].
    + now rewrite length_replicate.
    + now rewrite paint_spans_length, length_replicate.
Qed.

(** X9. When the constructor returns, the environment holds the
    arguments it was given, [turn = 0] and the empty history; and
    whatever queries are then submitted, returning or raising, [reset]
    brings the environment back to exactly the state the constructor
    built and returns the zero observation and mask. *)
Theorem reset_restores_constructed_state
    (gym : Gym) (mdl : Model) (tk : Tokenizer)
    (rf : Model -> list Z -> list Z -> Exn + Reward)
    (mt : Z) env0 (queries : list PyValue) :
  new_TextEnvironment gym mdl tk rf mt = inr env0 ->
  model env0 = mdl /\ tokenizer env0 = tk /\ reward_fn env0 = rf /\
  max_turns env0 = mt /\ turn env0 = 0 /\ history env0 = empty_history /\
  reset (fst (run_steps queries env0)) =
    (env0, inr (replicate obs_dim 0, replicate obs_dim 0)).
Proof.
  intros Hnew.
  assert (Hre : reachable_env env0) by exact (reach_init gym mdl tk rf mt env0 Hnew).
  apply new_TextEnvironment_inv in Hnew. subst env0.
  set (env0 := mkTextEnvironment mdl tk rf mt 0 empty_history) in *.
  do 6 (split; [reflexivity|]).
  destruct (run_steps_frame env0 queries Hre) as (_ & Hm & Htk & Hrf & Hmt & _).
  rewrite reset_spec. f_equal.
  destruct (fst (run_steps queries env0)) as [m' t' r' x' n' h']. cbn in *.
  now subst.
Qed.

(** X10. [turn] counts the calls of [step] that returned: over any
    sequence of queries submitted to a reachable environment, with the
    exceptions caught, [turn] grows by the number of results returned,
    and [max_turns] and the services stay as they were. *)
Theorem turn_counts_returned_steps env (queries : list PyValue) :
  reachable_env env ->
  turn (fst (run_steps queries env)) =
    turn env + Z.of_nat (length (returned (snd (run_steps queries env)))) /\
  length (snd (run_steps queries env)) = length queries /\
  max_turns (fst (run_steps queries env)) = max_turns env /\
  model (fst (run_steps queries env)) = model env /\
  tokenizer (fst (run_steps queries env)) = tokenizer env /\
  reward_fn (fst (run_steps queries env)) = reward_fn env.
Proof.
  intros Hre.
  destruct (run_steps_frame env queries Hre) as (_ & Hm & Htk & Hrf & Hmt & Ht & Hl).
  repeat split; assumption.
Qed.

(** X11. In every state an environment reaches, the history's tokens
    are a tensor (never [None], so the first branch of [step] is not
    taken) of at most [obs_dim] entries, and the observation is these
    tokens followed by zeros up to [obs_dim]. *)
Theorem reachable_env_tokens env :
  reachable_env env ->
  exists t,
    tokens (history env) = Some t /\ (length t <= obs_dim)%nat /\
    fst (to_obs (history env)) = t ++ replicate (obs_dim - length t) 0.
Proof.
  intros Hre.
  destruct (reachable_history_wf _ (reachable_env_history env Hre)) as [(t & Ht & Hlen) _].
  exists t. split; [exact Ht|]. split; [exact Hlen|].
  unfold to_obs. rewrite Ht. cbn [fst].
  destruct (length t <? obs_dim)%nat eqn:E; [reflexivity|].
  apply Nat.ltb_ge in E. replace (obs_dim - length t)%nat with 0%nat by lia.
  simpl. now rewrite app_nil_r.
Qed.

(** X12. What a returning [step] returns agrees with the state it
    leaves: the observation and the mask are [to_obs] of the new
    history, [done] is the new [completed] flag and equals
    [turn >= max_turns] for the new [turn], which is the old one plus
    one. *)
Theorem step_result_matches_state env env' (q : PyValue) (r : StepResult) :
  reachable_env env ->
  step q env = (env', inr r) ->
  (step_obs r, step_mask r) = to_obs (history env') /\
  completed (history env') = Some (step_done r) /\
  turn env' = turn env + 1 /\
  step_done r = (turn env' >=? max_turns env') /\
  max_turns env' = max_turns env.
Proof.
  intros Hre Hstep.
  destruct (reachable_history_wf _ (reachable_env_history env Hre)) as [(t & Ht & _) _].
  destruct (step_success_inv env env' q t r Ht Hstep)
    as (s & qt & g & rs & w & _ & _ & _ & _ & _ & _ & _ & -> & ->).
  repeat split.
Qed.

(** X13. A [step] that fails before the query is stored leaves the
    environment exactly as it was: when the tokenizer raises, and when
    the query text or its token tensor is empty (the [ValueError] of
    [append_segment]). *)
Theorem early_failure_changes_nothing env (q : PyValue) (s : string) (t : list Z) :
  tokens (history env) = Some t ->
  py_str q = inr s ->
  (forall e, encode (tokenizer env) s = inl e -> step q env = (env, inl e)) /\
  (forall qt, encode (tokenizer env) s = inr qt -> s = ""%string \/ qt = [] ->
     step q env = (env, inl empty_segment)).
Proof.
  intros Ht Hq. rewrite step_coerce, Hq, (step_spec env s t Ht). split.
  - intros e ->. reflexivity.
  - intros qt -> Hempty. now rewrite (guard_true _ _ Hempty).
Qed.

Lemma successful_steps_spans env env' (rs : list StepResult) :
  reachable_history (history env) ->
  successful_steps env rs env' ->
  reachable_history (history env') /\
  length (text_spans (history env')) =
    (length (text_spans (history env)) + 2 * length rs)%nat.
Proof.
  intros Hr Hrun.
  induction Hrun as [env | env env1 env2 rs q r _ IH Hstep].
  - split; [assumption | simpl; lia].
  - destruct (IH Hr) as (Hr1 & Hlen).
    destruct (reachable_history_wf _ Hr1) as [(t & Ht & _) _].
    pose proof (step_grows env1 q Hr1) as (Hg & _). rewrite Hstep in Hg. cbn [fst] in Hg.
    split; [exact (grows_reachable _ _ Hg Hr1)|].
    destruct (step_success_inv env1 env2 q t r Ht Hstep)
      as (s & qt & g & x & w & _ & _ & _ & _ & _ & _ & _ & -> & _).
    cbn. rewrite !length_app, Hlen. simpl. lia.
Qed.

(** X14. Every [step] that returns stores exactly two more spans, the
    query's and then the response's: after a run of returning calls
    the number of spans has grown by twice the number of calls, so in
    a run started on an empty history the queries sit at the even
    indices and the responses at the odd ones. *)
Theorem two_spans_per_step env env' (rs : list StepResult) :
  reachable_env env ->
  successful_steps env rs env' ->
  length (text_spans (history env')) =
    (length (text_spans (history env)) + 2 * length rs)%nat.
Proof.
  intros Hre Hrun.
  exact (proj2 (successful_steps_spans env env' rs (reachable_env_history env Hre) Hrun)).
Qed.

Lemma last_n_app_long (n : nat) (a b : list Z) :
  (n <= length b)%nat -> last_n n (a ++ b) = last_n n b.
Proof.
  intros H. unfold last_n. rewrite length_app.
  replace (length a + length b - n)%nat with (length a + (length b - n))%nat by lia.
  now rewrite drop_app_add.
Qed.

(** X15. After a [step] that returns, the tokens kept are the last
    [obs_dim] of the old tokens, the query tokens and the response
    tokens in this order; a response of [obs_dim] tokens or more fills
    the returned observation with its own last [obs_dim] tokens. *)
Theorem step_token_window env env' (q : PyValue) (t : list Z) (r : StepResult) :
  tokens (history env) = Some t ->
  step q env = (env', inr r) ->
  exists s qt g,
    py_str q = inr s /\
    encode (tokenizer env) s = inr qt /\
    model_generate (model env) (last_n obs_dim (t ++ qt)) = inr g /\
    tokens (history env') =
      Some (last_n obs_dim
              (t ++ qt ++ drop (length (last_n obs_dim (t ++ qt))) g)) /\
    ((obs_dim <= length (drop (length (last_n obs_dim (t ++ qt))) g))%nat ->
     step_obs r = last_n obs_dim (drop (length (last_n obs_dim (t ++ qt))) g)).
Proof.
  intros Ht Hstep.
  destruct (step_success_inv env env' q t r Ht Hstep)
    as (s & qt & g & rs & w & Hq & Henc & _ & Hg & _ & _ & _ & -> & ->).
  exists s, qt, g. split; [exact Hq|]. split; [exact Henc|]. split; [exact Hg|].
  set (rt := drop (length (last_n obs_dim (t ++ qt))) g).
  assert (Hwin : last_n obs_dim (last_n obs_dim (t ++ qt) ++ rt) =
                 last_n obs_dim (t ++ qt ++ rt)).
  { now rewrite last_n_app_window, app_assoc. }
  split.
  - cbn. now rewrite Hwin.
  - intros Hlong. cbn [step_result step_obs history set_history].
    unfold to_obs. cbn [appended tokens fst]. rewrite Hwin.
    rewrite app_assoc, (last_n_app_long _ _ _ Hlong).
    assert (Hl : length (last_n obs_dim rt) = obs_dim) by (rewrite last_n_length; lia).
    rewrite Hl, Nat.ltb_irrefl. reflexivity.
Qed.

(** X16. [generate] hands the model the history's tokens and keeps
    what the model added after them: a generation that continues the
    prompt with [c] appends [c] with its decoded text and returns [c];
    a generation no longer than the prompt leaves nothing to append,
    and [generate] raises the [ValueError] of [append_segment] with
    the history unchanged. *)
Theorem generate_strips_prompt env (t : list Z) :
  tokens (history env) = Some t ->
  (forall c rs,
     model_generate (model env) t = inr (t ++ c) ->
     decode (tokenizer env) c = inr rs ->
     c <> [] -> rs <> ""%string ->
     generate env = (set_history (appended rs c t (history env)) env, inr c)) /\
  (forall g rs,
     model_generate (model env) t = inr g ->
     (length g <= length t)%nat ->
     decode (tokenizer env) [] = inr rs ->
     generate env = (env, inl empty_segment)).
Proof.
  intros Ht. rewrite (generate_spec env t Ht). split.
  - intros c rs Hg Hd Hc Hrs. rewrite Hg, drop_app_length, Hd.
    now rewrite (guard_false _ _ Hrs Hc).
  - intros g rs Hg Hlen Hd. rewrite Hg, (drop_ge g (length t) Hlen), Hd.
    rewrite (guard_true rs []); [reflexivity | now right].
Qed.

(** X17. After a [step] that returns, the last text segment of the
    history is the decoded response, the text [test_env] prints. *)
Theorem last_text_segment_after_step env env' (q : PyValue) (t : list Z) (r : StepResult) :
  tokens (history env) = Some t ->
  step q env = (env', inr r) ->
  exists s qt g rs,
    py_str q = inr s /\
    encode (tokenizer env) s = inr qt /\
    model_generate (model env) (last_n obs_dim (t ++ qt)) = inr g /\
    decode (tokenizer env) (drop (length (last_n obs_dim (t ++ qt))) g) = inr rs /\
    last_text_segment (history env') = inr rs /\
    text (history env') = (text (history env) +:+ s) +:+ rs.
Proof.
  intros Ht Hstep.
  destruct (step_success_inv env env' q t r Ht Hstep)
    as (s & qt & g & rs & w & Hq & Henc & _ & Hg & Hd & _ & _ & -> & _).
  exists s, qt, g, rs. repeat split; try assumption.
  cbn [close_turn history set_history set_turn].
  exact (last_text_segment_appended rs _ _ _).
Qed.

End EnvironmentExtras.

Section InteractionLoop.

Context {Reward : Type}.
Implicit Types env : @TextEnvironment Reward.

(** A [step] whose services all answer returns. *)
Lemma step_returns env (s rs : string) (qt t g : list Z) (w : Reward) :
  tokens (history env) = Some t ->
  encode (tokenizer env) s = inr qt ->
  s <> ""%string -> qt <> [] ->
  model_generate (model env) (last_n obs_dim (t ++ qt)) = inr g ->
  decode (tokenizer env) (drop (length (last_n obs_dim (t ++ qt))) g) = inr rs ->
  rs <> ""%string ->
  drop (length (last_n obs_dim (t ++ qt))) g <> [] ->
  reward_fn env (model env) qt (drop (length (last_n obs_dim (t ++ qt))) g) = inr w ->
  step (PyStr s) env =
  (close_turn
     (set_history
        (appended rs (drop (length (last_n obs_dim (t ++ qt))) g)
           (last_n obs_dim (t ++ qt)) (appended s qt t (history env))) env),
   inr (step_result
          (set_history
             (appended rs (drop (length (last_n obs_dim (t ++ qt))) g)
                (last_n obs_dim (t ++ qt)) (appended s qt t (history env))) env) w)).
Proof.
  intros Ht Henc Hs Hqt Hg Hd Hrs Hrt Hrew.
  rewrite (step_spec env s t Ht), Henc, (guard_false _ _ Hs Hqt).
  rewrite (generate_spec (set_history (appended s qt t (history env)) env)
             (last_n obs_dim (t ++ qt)) eq_refl).
  cbn [model tokenizer set_history].
  rewrite Hg, Hd, (guard_false _ _ Hrs Hrt).
  cbn [model reward_fn set_history]. now rewrite Hrew.
Qed.

Lemma interaction_loop_runs (n : nat) env :
  services_answer env auto_query ->
  (exists t, tokens (history env) = Some t) ->
  0 <= turn env ->
  turn env + Z.of_nat n = Z.of_nat (Z.to_nat (max_turns env)) ->
  exists env' log,
    interaction_loop n env = (env', inr log) /\
    length log = n /\
    turn env' = turn env + Z.of_nat n /\
    max_turns env' = max_turns env /\
    ((0 < n)%nat -> completed (history env') = Some true) /\
    length (text_spans (history env')) =
      (length (text_spans (history env)) + 2 * n)%nat.
Proof.
  revert env. induction n as [|n IH]; intros env Hsrv [t Ht] Hpos Hturn.
  - exists env, []. repeat split; simpl; lia.
  - pose proof Hsrv as (Hq & qt & Henc & Hqt & Hans).
    destruct (Hans (last_n obs_dim (t ++ qt))) as (g & rs & w & Hg & Hrt & Hd & Hrs & Hw).
    pose proof (step_returns env auto_query rs qt t g w Ht Henc Hq Hqt Hg Hd Hrs Hrt Hw)
      as Hstep.
    set (h2 := appended rs (drop (length (last_n obs_dim (t ++ qt))) g)
                 (last_n obs_dim (t ++ qt)) (appended auto_query qt t (history env)))
      in Hstep.
    cbn [interaction_loop]. unfold bind at 1. rewrite Hstep.
    unfold bind at 1. unfold on_history at 1.
    cbn [close_turn history set_history set_turn].
    assert (Hseg : last_text_segment
                     (set_completed (Some (turn env + 1 >=? max_turns env)) h2) = inr rs)
      by exact (last_text_segment_appended rs _ _ _).
    change (turn (set_history h2 env)) with (turn env).
    change (max_turns (set_history h2 env)) with (max_turns env).
    rewrite Hseg. cbn [step_result step_done step_rew].
    change (turn (set_history h2 env)) with (turn env).
    change (max_turns (set_history h2 env)) with (max_turns env).
    destruct (turn env + 1 >=? max_turns env) eqn:Hdone.
    + (* the [break]: this was the last iteration *)
      assert (n = 0)%nat as -> by (apply Z.geb_le in Hdone; lia).
      eexists _, _. split; [reflexivity|].
      cbn. rewrite !length_app. simpl. repeat split; lia.
    + assert (Hlt : turn env + 1 < max_turns env).
      { destruct (Z.geb_spec (turn env + 1) (max_turns env)); [discriminate | lia]. }
      unfold bind at 1.
      match goal with
      | |- context [interaction_loop n ?e] => set (env1 := e)
      end.
      destruct (IH env1) as (env' & log & Hloop & Hlen & Ht' & Hm' & Hc' & Hsp').
      * exact Hsrv.
      * eexists. reflexivity.
      * unfold env1. cbn. lia.
      * unfold env1. cbn. lia.
      * rewrite Hloop.
        eexists _, _. split; [reflexivity|].
        unfold env1 in Ht', Hm', Hsp'.
        cbn in Ht', Hm', Hsp'. rewrite !length_app in Hsp'. simpl in Hsp'.
        split; [simpl; lia|]. split; [lia|]. split; [exact Hm'|].
        split; [|lia].
        intros _. apply Hc'. lia.
Qed.

(** X18. When the services answer the query of [test_env] whatever the
    prompt, [test_env] raises nothing and makes exactly [max_turns]
    calls of [step] (none for a non-positive [max_turns]): the [break]
    falls on the last iteration of the loop.  It prints one response
    per call and ends with [turn = max_turns], the history completed,
    and two spans per call. *)
Theorem test_env_runs_max_turns env :
  services_answer env auto_query ->
  exists env' log,
    test_env env = (env', inr log) /\
    length log = Z.to_nat (max_turns env) /\
    turn env' = Z.of_nat (Z.to_nat (max_turns env)) /\
    (0 < max_turns env -> turn env' = max_turns env /\
                          completed (history env') = Some true) /\
    length (text_spans (history env')) = (2 * Z.to_nat (max_turns env))%nat.
Proof.
  intros Hsrv. unfold test_env. unfold bind at 1. rewrite reset_spec.
  unfold bind at 1. unfold gets at 1.
  cbn [max_turns set_turn set_history].
  destruct (interaction_loop_runs (Z.to_nat (max_turns env))
              (set_turn 0 (set_history empty_history env)))
    as (env' & log & Hloop & Hlen & Ht & Hm & Hc & Hsp).
  - exact Hsrv.
  - eexists. reflexivity.
  - cbn. lia.
  - cbn. lia.
  - exists env', log. split; [exact Hloop|]. split; [exact Hlen|].
    cbn in Ht, Hsp. split; [lia|]. split; [|lia].
    intros Hpos. split; [lia|]. apply Hc. lia.
Qed.

End InteractionLoop.

(** ** The index arithmetic of [calculate_perplexity] *)

Lemma py_bound_nonneg (len : nat) (i : Z) :
  0 <= i -> py_bound len i = Nat.min len (Z.to_nat i).
Proof.
  intros Hi. unfold py_bound.
  destruct (Z.ltb_spec i 0); lia.
Qed.

Lemma py_bound_minus_one (len : nat) : py_bound len (-1) = (len - 1)%nat.
Proof. unfold py_bound. cbn [Z.ltb Z.compare]. lia. Qed.

(** X19. In [calculate_perplexity], with one row of logits per input
    token, the shifted logits and the shifted labels have the same
    length, the number of response tokens minus one.  The labels are
    the response without its first token, and the row paired with the
    response token [k+1] is the row at the position of the response
    token [k]: the first response token is never scored, and a
    response of one token leaves nothing to score. *)
Theorem perplexity_shift {Row : Type} (query response : list Z) (logits : list Row) :
  length logits = length (total_input query response) ->
  shifted_labels query response = drop 1 response /\
  length (shifted_logits query logits) = (length response - 1)%nat /\
  length (shifted_labels query response) = (length response - 1)%nat /\
  forall k : nat, (k < length response - 1)%nat ->
    shifted_logits query logits !! k = logits !! (length query + k)%nat /\
    shifted_labels query response !! k = response !! (S k).
Proof.
  intros Hlen. unfold total_input in Hlen. rewrite length_app in Hlen.
  assert (Hlab : shifted_labels query response = drop 1 response).
  { unfold shifted_labels, py_slice_from, total_input.
    rewrite py_bound_nonneg by lia. rewrite length_app.
    destruct response as [|z response].
    - rewrite app_nil_r. simpl length. rewrite drop_ge by lia. reflexivity.
    - replace (Nat.min (length query + length (z :: response))
                 (Z.to_nat (Z.of_nat (length query) + 1)))
        with (length query + 1)%nat by (simpl length; lia).
      now rewrite <- drop_drop, drop_app_length. }
  assert (Hlog : shifted_logits query logits =
                 take (length response - 1) (drop (length query) logits)).
  { unfold shifted_logits, py_slice.
    rewrite py_bound_minus_one, py_bound_nonneg by lia.
    rewrite Hlen, Nat2Z.id.
    replace (Nat.min (length query + length response) (length query))
      with (length query) by lia.
    f_equal. lia. }
  split; [exact Hlab|]. split; [|split].
  - rewrite Hlog, length_take, length_drop. lia.
  - rewrite Hlab, length_drop. lia.
  - intros k Hk. split.
    + rewrite Hlog, lookup_take_lt by lia. now rewrite lookup_drop.
    + rewrite Hlab, lookup_drop. reflexivity.
Qed.

(** ** The further properties on the stub services *)

Lemma demo_env1_reachable : reachable_env demo_env1.
Proof.
  replace demo_env1 with (fst (step (PyStr "hi") demo_env)) by now rewrite demo_step1.
  apply reach_step, demo_env_reachable.
Qed.

Lemma auto_step1 : step (PyStr auto_query) demo_env = (auto_env1, inr auto_result1).
Proof. vm_compute. reflexivity. Qed.

Lemma auto_env1_reachable : reachable_env auto_env1.
Proof.
  replace auto_env1 with (fst (step (PyStr auto_query) demo_env)) by now rewrite auto_step1.
  apply reach_step, demo_env_reachable.
Qed.

Lemma demo_services_answer : services_answer demo_env auto_query.
Proof.
  split; [discriminate|]. eexists. split; [reflexivity|]. split; [discriminate|].
  intros prompt. exists (prompt ++ [3; 4; 5]), "abc"%string, 0.
  cbn [demo_env fresh_env model tokenizer reward_fn stub_model model_generate
       stub_tokenizer decode stub_reward].
  rewrite drop_app_length. repeat split; discriminate.
Qed.

Lemma mask_zero_beyond_text_witness :
  reachable_env demo_env1 /\ (5 < obs_dim)%nat /\
  String.length (text (history demo_env1)) = 5%nat /\
  snd (to_obs (history demo_env1)) !! 5%nat = Some 0.
Proof.
  assert (Hp : (5 < obs_dim)%nat) by (unfold obs_dim; lia).
  split; [exact demo_env1_reachable|]. split; [exact Hp|]. split; [reflexivity|].
  apply (proj2 (mask_zero_beyond_text demo_env1 5 demo_env1_reachable Hp)).
  simpl. lia.
Defined.

Lemma long_first_segment_masks_all_witness :
  reachable_env auto_env1 /\
  text_spans (history auto_env1) !! 0%nat = Some (0, 25)%nat /\
  tokens (history auto_env1) = Some [32; 104; 101; 114; 101; 3; 4; 5] /\
  snd (to_obs (history auto_env1)) = [1; 1; 1; 1; 1; 1; 1; 1].
Proof.
  split; [exact auto_env1_reachable|]. split; [reflexivity|]. split; [reflexivity|].
  apply (long_first_segment_masks_all auto_env1 (0, 25)%nat auto_env1_reachable eq_refl).
  unfold obs_dim. simpl. lia.
Defined.

Lemma turn_counts_returned_steps_witness :
  reachable_env demo_env /\
  snd (step (PyStr "") demo_env) = inl empty_segment /\
  turn (fst (run_steps [PyStr "hi"; PyStr ""; PyStr "hi"] demo_env)) =
    turn demo_env +
    Z.of_nat (length (returned (snd (run_steps [PyStr "hi"; PyStr ""; PyStr "hi"] demo_env)))) /\
  length (snd (run_steps [PyStr "hi"; PyStr ""; PyStr "hi"] demo_env)) = 3%nat.
Proof.
  split; [exact demo_env_reachable|]. split; [vm_compute; reflexivity|].
  destruct (turn_counts_returned_steps demo_env [PyStr "hi"; PyStr ""; PyStr "hi"]
              demo_env_reachable) as (Ht & Hl & _).
  split; [exact Ht | exact Hl].
Defined.

Lemma reachable_env_tokens_witness :
  reachable_env demo_env1 /\
  exists t,
    tokens (history demo_env1) = Some t /\ (length t <= obs_dim)%nat /\
    fst (to_obs (history demo_env1)) = t ++ replicate (obs_dim - length t) 0.
Proof.
  split; [exact demo_env1_reachable|].
  exact (reachable_env_tokens demo_env1 demo_env1_reachable).
Defined.

Lemma step_result_matches_state_witness :
  reachable_env demo_env /\
  step (PyStr "hi") demo_env = (demo_env1, inr demo_result1) /\
  (step_obs demo_result1, step_mask demo_result1) = to_obs (history demo_env1) /\
  completed (history demo_env1) = Some (step_done demo_result1) /\
  turn demo_env1 = turn demo_env + 1.
Proof.
  split; [exact demo_env_reachable|]. split; [exact demo_step1|].
  destruct (step_result_matches_state demo_env demo_env1 (PyStr "hi") demo_result1
              demo_env_reachable demo_step1) as (Ho & Hc & Ht & _).
  split; [exact Ho|]. split; [exact Hc | exact Ht].
Defined.

Lemma early_failure_changes_nothing_witness :
  tokens (history demo_env) = Some [] /\
  encode (tokenizer demo_env) "" = inr [] /\
  step (PyStr "") demo_env = (demo_env, inl empty_segment).
Proof.
  split; [reflexivity|]. split; [reflexivity|].
  destruct (early_failure_changes_nothing demo_env (PyStr "") "" [] eq_refl eq_refl)
    as [_ Hempty].
  apply (Hempty []); [reflexivity | now left].
Defined.

Lemma two_spans_per_step_witness :
  reachable_env demo_env /\
  successful_steps demo_env [demo_result1; demo_result2; demo_result3] done_env /\
  length (text_spans (history done_env)) = 6%nat.
Proof.
  split; [exact demo_env_reachable|]. split; [exact demo_run|].
  exact (two_spans_per_step demo_env done_env _ demo_env_reachable demo_run).
Defined.

Lemma step_token_window_witness :
  tokens (history demo_env2) = Some [3; 4; 5; 1; 2; 3; 4; 5] /\
  step (PyStr "hi") demo_env2 = (done_env, inr demo_result3) /\
  exists s qt g,
    py_str (PyStr "hi") = inr s /\
    encode (tokenizer demo_env2) s = inr qt /\
    model_generate (model demo_env2) (last_n obs_dim ([3; 4; 5; 1; 2; 3; 4; 5] ++ qt)) = inr g /\
    tokens (history done_env) =
      Some (last_n obs_dim
              ([3; 4; 5; 1; 2; 3; 4; 5] ++ qt ++
               drop (length (last_n obs_dim ([3; 4; 5; 1; 2; 3; 4; 5] ++ qt))) g)).
Proof.
  split; [reflexivity|]. split; [exact demo_step3|].
  destruct (step_token_window demo_env2 done_env (PyStr "hi") [3; 4; 5; 1; 2; 3; 4; 5]
              demo_result3 eq_refl demo_step3) as (s & qt & g & Hq & He & Hg & Ht & _).
  exists s, qt, g. repeat split; assumption.
Defined.

Lemma generate_strips_prompt_witness :
  tokens (history demo_env1) = Some [1; 2; 3; 4; 5] /\
  generate demo_env1 =
    (set_history (appended "abc" [3; 4; 5] [1; 2; 3; 4; 5] (history demo_env1)) demo_env1,
     inr [3; 4; 5]) /\
  tokens (history echo_env) = Some [] /\
  generate echo_env = (echo_env, inl empty_segment).
Proof.
  split; [reflexivity|].
  destruct (generate_strips_prompt demo_env1 [1; 2; 3; 4; 5] eq_refl) as [Hcont _].
  destruct (generate_strips_prompt echo_env [] eq_refl) as [_ Hshort].
  split; [|split; [reflexivity|]].
  - apply Hcont; (reflexivity || discriminate).
  - apply (Hshort [] "abc"%string); (reflexivity || (simpl; lia)).
Defined.

Lemma last_text_segment_after_step_witness :
  tokens (history demo_env) = Some [] /\
  step (PyStr "hi") demo_env = (demo_env1, inr demo_result1) /\
  decode (tokenizer demo_env) [3; 4; 5] = inr "abc"%string /\
  exists rs, last_text_segment (history demo_env1) = inr rs /\
             text (history demo_env1) = (text (history demo_env) +:+ "hi") +:+ rs.
Proof.
  split; [reflexivity|]. split; [exact demo_step1|]. split; [reflexivity|].
  destruct (last_text_segment_after_step demo_env demo_env1 (PyStr "hi") [] demo_result1
              eq_refl demo_step1) as (s & qt & g & rs & Hq & _ & _ & _ & Hl & Ht).
  injection Hq as <-. exists rs. split; [exact Hl | exact Ht].
Defined.

Lemma test_env_runs_max_turns_witness :
  services_answer demo_env auto_query /\
  exists env' log,
    test_env demo_env = (env', inr log) /\
    length log = Z.to_nat (max_turns demo_env) /\
    turn env' = Z.of_nat (Z.to_nat (max_turns demo_env)).
Proof.
  split; [exact demo_services_answer|].
  destruct (test_env_runs_max_turns demo_env demo_services_answer)
    as (env' & log & Hrun & Hlen & Ht & _).
  exists env', log. split; [exact Hrun|]. split; [exact Hlen | exact Ht].
Defined.

Lemma perplexity_shift_witness :
  length [10; 11; 12; 13; 14]%nat = length (total_input [1; 2] [3; 4; 5]) /\
  shifted_labels [1; 2] [3; 4; 5] = [4; 5] /\
  shifted_logits [1; 2] [10; 11; 12; 13; 14]%nat = [12; 13]%nat /\
  length (shifted_logits [1; 2] [10; 11; 12; 13; 14]%nat) = 2%nat.
Proof.
  split; [reflexivity|].
  destruct (perplexity_shift [1; 2] [3; 4; 5] [10; 11; 12; 13; 14]%nat eq_refl)
    as (Hlab & Hlen & _).
  split; [exact Hlab|]. split; [reflexivity | exact Hlen].
Defined.

Lemma reset_restores_constructed_state_witness :
  new_TextEnvironment stub_gym stub_model (stub_tokenizer "abc") stub_reward 3 =
    inr demo_env /\
  new_TextEnvironment failing_gym stub_model (stub_tokenizer "abc") stub_reward 3 =
    inl (Raised "AssertionError") /\
  turn demo_env = 0 /\ history demo_env = empty_history /\
  reset (fst (run_steps [PyStr "hi"; PyStr ""; PyStr "hi"] demo_env)) =
    (demo_env, inr (replicate obs_dim 0, replicate obs_dim 0)).
Proof.
  split; [reflexivity|]. split; [reflexivity|].
  destruct (reset_restores_constructed_state stub_gym stub_model (stub_tokenizer "abc")
              stub_reward 3 demo_env [PyStr "hi"; PyStr ""; PyStr "hi"] eq_refl)
    as (_ & _ & _ & _ & Ht & Hh & Hreset).
  split; [exact Ht|]. split; [exact Hh | exact Hreset].
Defined.
